(** * bitcoin-app-scraper: the attendee walker, the Brella client mappings
      and the LinkedIn enrichment matcher, embedded from the Go sources.

    - [internal/scraper/types.go]   : [Profile]
    - package [scraper], the client : [Client], [ListProfiles],
      [GetAttendeeProfile], [newRequest], [mapBrellaDetailToProfile]
    - [internal/scraper/scraper.go] : [Scraper], [ScrapeAllProfiles]
    - package [linkedin]            : [Matcher], [EnrichProfiles],
      [findLinkedInCandidates], [searchOnce]

    Go strings are byte strings: they are modelled as [string], one [ascii]
    per byte.  Go [int] is modelled as [Z]; the only arithmetic the program
    performs on it is [page++], whose 64-bit wrap-around is written out. *)

From Stdlib Require Import ZArith String Ascii List Lia DecimalString.
From stdpp Require Import base list strings.

Open Scope Z_scope.

(** ** Go standard-library string functions used by the program *)

Module GoStrings.

Definition isEmpty (s : string) : bool :=
  match s with
  | EmptyString => true
  | String _ _ => false
  end.

(** [strings.Contains s substr]: [substr] occurs in [s]. *)
Fixpoint Contains (s substr : string) : bool :=
  String.prefix substr s
  || match s with
     | EmptyString => false
     | String _ rest => Contains rest substr
     end.

(** [strings.Join elems sep]. *)
Fixpoint Join (elems : list string) (sep : string) : string :=
  match elems with
  | [] => EmptyString
  | [e] => e
  | e :: rest => e +:+ sep +:+ Join rest sep
  end.

(** [%d] of [fmt.Sprintf] on an [int]. *)
Definition itoa (n : Z) : string := NilZero.string_of_int (Z.to_int n).

Definition byte (c : ascii) : N := N_of_ascii c.

(** The one-byte white space of [unicode.IsSpace]: tab, line feed,
    vertical tab, form feed, carriage return, space. *)
Definition asciiSpace (c : ascii) : bool :=
  ((9 <=? byte c) && (byte c <=? 13) || (byte c =? 32))%N.

(** [leadingSpace s] is the rest of [s] after one leading white-space
    rune, when [s] starts with one.  The runes of [unicode.IsSpace] and
    their UTF-8 encodings: U+0085 (C2 85), U+00A0 (C2 A0), U+1680
    (E1 9A 80), U+2000..U+200A (E2 80 80..8A), U+2028, U+2029, U+202F
    (E2 80 A8, A9, AF), U+205F (E2 81 9F), U+3000 (E3 80 80). *)
Definition leadingSpace (s : string) : option string :=
  match s with
  | EmptyString => None
  | String c r =>
      if asciiSpace c then Some r
      else
        match r with
        | String d r' =>
            if ((byte c =? 194) && ((byte d =? 133) || (byte d =? 160)))%N
            then Some r'
            else
              match r' with
              | String e r'' =>
                  if ((byte c =? 225) && (byte d =? 154) && (byte e =? 128))%N
                     || ((byte c =? 226) && (byte d =? 128)
                         && ((128 <=? byte e) && (byte e <=? 138)
                             || (byte e =? 168) || (byte e =? 169)
                             || (byte e =? 175)))%N
                     || ((byte c =? 226) && (byte d =? 129) && (byte e =? 159))%N
                     || ((byte c =? 227) && (byte d =? 128) && (byte e =? 128))%N
                  then Some r''
                  else None
              | EmptyString => None
              end
        | EmptyString => None
        end
  end.

(** [trailingSpace r], on the reversed string [r]: the rest after one
    trailing white-space rune of the original string (the same byte
    sequences, read backwards, as [utf8.DecodeLastRuneInString] finds
    them). *)
Definition trailingSpace (r : string) : option string :=
  match r with
  | EmptyString => None
  | String c t =>
      if asciiSpace c then Some t
      else
        match t with
        | String d t' =>
            if ((byte d =? 194) && ((byte c =? 133) || (byte c =? 160)))%N
            then Some t'
            else
              match t' with
              | String e t'' =>
                  if ((byte e =? 225) && (byte d =? 154) && (byte c =? 128))%N
                     || ((byte e =? 226) && (byte d =? 128)
                         && ((128 <=? byte c) && (byte c <=? 138)
                             || (byte c =? 168) || (byte c =? 169)
                             || (byte c =? 175)))%N
                     || ((byte e =? 226) && (byte d =? 129) && (byte c =? 159))%N
                     || ((byte e =? 227) && (byte d =? 128) && (byte c =? 128))%N
                  then Some t''
                  else None
              | EmptyString => None
              end
        | EmptyString => None
        end
  end.

Fixpoint dropWhile (step : string -> option string) (fuel : nat) (s : string)
  : string :=
  match fuel with
  | O => s
  | S fuel' =>
      match step s with
      | Some rest => dropWhile step fuel' rest
      | None => s
      end
  end.

Definition TrimLeftSpace (s : string) : string :=
  dropWhile leadingSpace (String.length s) s.

Definition TrimRightSpace (s : string) : string :=
  String.rev (dropWhile trailingSpace (String.length s) (String.rev s)).

(** [strings.TrimSpace]: all leading and trailing white space, as
    defined by Unicode, removed. *)
Definition TrimSpace (s : string) : string :=
  TrimRightSpace (TrimLeftSpace s).

(** [url.QueryEscape]: letters, digits and [-_.~] are kept, a space
    becomes [+], any other byte becomes [%XX] in upper-case hex. *)
Definition unreserved (c : ascii) : bool :=
  let n := byte c in
  ((48 <=? n) && (n <=? 57) || (65 <=? n) && (n <=? 90)
   || (97 <=? n) && (n <=? 122)
   || (n =? 45) || (n =? 95) || (n =? 46) || (n =? 126))%N.

Definition upperhex (n : N) : ascii :=
  ascii_of_N (if (n <? 10)%N then 48 + n else 55 + n)%N.

Fixpoint QueryEscape (s : string) : string :=
  match s with
  | EmptyString => EmptyString
  | String c rest =>
      if unreserved c then String c (QueryEscape rest)
      else if (byte c =? 32)%N then String "+" (QueryEscape rest)
      else String "%" (String (upperhex (byte c / 16))
                         (String (upperhex (byte c mod 16)) (QueryEscape rest)))
  end.

End GoStrings.

Import GoStrings.

(** ** Data model *)

(** [internal/scraper/types.go]. *)
Record Profile := {
  ID : string;
  Name : string;
  Title : string;
  Company : string;
  Location : string;
  LinkedInURL : string;
  PossibleLinkedInURLs : list string;
}.

(** The zero value of [Profile] with only [ID] set: [Profile{ID: id}]. *)
Definition stubProfile (id : string) : Profile :=
  {| ID := id; Name := EmptyString; Title := EmptyString;
     Company := EmptyString; Location := EmptyString;
     LinkedInURL := EmptyString; PossibleLinkedInURLs := [] |}.

(** [brellaAttendeesListResponse]: the [id]s of the [data] array. *)
Record brellaAttendeesListResponse := {
  list_Data : list string;
}.

(** [brellaAttendeeDetailResponse]. *)
Record resourceRef := {
  ref_ID : string;
  ref_Type : string;
}.

Record detailData := {
  data_ID : string;
  data_Type : string;
  data_Relationships_User_Data : resourceRef;
}.

Record userAttributes := {
  FirstName : string;
  LastName : string;
  CompanyTitle : string;
  CompanyName : string;
  LinkedIn : string;
  Twitter : string;
  Website : string;
  TimeZone : string;
  CompanyCountries : list string;
}.

Record includedResource := {
  inc_ID : string;
  inc_Type : string;
  inc_Attributes : userAttributes;
}.

Record brellaAttendeeDetailResponse := {
  detail_Data : detailData;
  detail_Included : list includedResource;
}.

(** [googleSearchResponse]: the [link]s of the [items] array. *)
Record googleSearchResponse := {
  search_Items : list string;
}.

(** [ListProfilesResult]. *)
Record ListProfilesResult := {
  Profiles : list Profile;
  HasNext : bool;
}.

(** Go [error] values: [errors.New] and [fmt.Errorf] without [%w] give a
    plain message; [fmt.Errorf] with a final [%w] wraps its cause behind
    the text formatted before it. *)
Inductive error :=
| errorString (msg : string)
| wrapError (msg : string) (cause : error).

(** ** The detail mapping, [mapBrellaDetailToProfile] *)

Definition userLocation (a : userAttributes) : string :=
  if (0 <? Z.of_nat (length (CompanyCountries a))) then
    Join (CompanyCountries a) ", "
  else if negb (isEmpty (TimeZone a)) then TimeZone a
  else EmptyString.

Definition userName (a : userAttributes) : string :=
  let first := TrimSpace (FirstName a) in
  let last := TrimSpace (LastName a) in
  TrimSpace (Join [first; last] " ").

(** The [for _, inc := range resp.Included] loop: entries that are not the
    referenced user are skipped, the first one that is fills the profile
    and ends the loop. *)
Fixpoint fillFromIncluded (profile : Profile) (userID : string)
    (included : list includedResource) : Profile :=
  match included with
  | [] => profile
  | inc :: rest =>
      if negb (inc_Type inc =? "user")%string || negb (inc_ID inc =? userID)%string
      then fillFromIncluded profile userID rest
      else
        {| ID := ID profile;
           Name := userName (inc_Attributes inc);
           Title := CompanyTitle (inc_Attributes inc);
           Company := CompanyName (inc_Attributes inc);
           Location := userLocation (inc_Attributes inc);
           LinkedInURL := LinkedIn (inc_Attributes inc);
           PossibleLinkedInURLs := PossibleLinkedInURLs profile |}
  end.

Definition mapBrellaDetailToProfile (resp : brellaAttendeeDetailResponse)
  : Profile :=
  let profile := stubProfile (data_ID (detail_Data resp)) in
  let userID := ref_ID (data_Relationships_User_Data (detail_Data resp)) in
  if isEmpty userID then profile
  else fillFromIncluded profile userID (detail_Included resp).

(** ** HTTP and the world outside the program *)

(** An [*http.Request] as the program builds it: method, URL and the
    headers set on it, in the order they were set. *)
Record Request := {
  Method : string;
  URL : string;
  Header : list (string * string);
}.

(** [req.Header.Set key value] replaces the values of [key];
    [req.Header.Add key value] appends one.  Header names are kept as the
    source writes them ([net/http] stores them in canonical case). *)
Definition Header_Set (key value : string) (req : Request) : Request :=
  {| Method := Method req; URL := URL req;
     Header := filter (fun kv => fst kv <> key) (Header req) ++ [(key, value)] |}.

Definition Header_Add (key value : string) (req : Request) : Request :=
  {| Method := Method req; URL := URL req;
     Header := Header req ++ [(key, value)] |}.

(** What the program reads of an [*http.Response]. *)
Record Response (Body : Type) := {
  StatusCode : Z;
  RespBody : Body;
}.
Arguments StatusCode {Body} _.
Arguments RespBody {Body} _.

(** Everything the program takes from its libraries and from the network:
    the bytes of a response body and what [encoding/json] decodes from it
    into each of the three envelopes, the HTTP round trip ([HTTPClient.Do]:
    the answer may depend on everything that happened before, which is the
    [World]), [strconv.Quote] (the [%q] verb) and the URL check of
    [http.NewRequestWithContext]. *)
Class Runtime := {
  Body : Type;
  bodyBytes : Body -> string;
  decodeAttendees : Body -> error + brellaAttendeesListResponse;
  decodeDetail : Body -> error + brellaAttendeeDetailResponse;
  decodeSearch : Body -> error + googleSearchResponse;
  World : Type;
  RoundTrip : Request -> World -> (error + Response Body) * World;
  Quote : string -> string;
  urlError : string -> option error;
}.

Section Effects.
Context {R : Runtime}.

(** The observable effects, in the order they happen: HTTP exchanges
    (the request sent and what came back) and blocking pauses.  The
    [log.Printf] lines change nothing the program computes and are
    left out. *)
Inductive Event :=
| Exchange (req : Request) (outcome : error + Response Body)
| Sleep (d : Z).

Record State := {
  world : World;
  trace : list Event;
}.

(** State and error monad of the calls that return [(T, error)]. *)
Definition M (A : Type) : Type := State -> (error + A) * State.

Definition ret {A : Type} (a : A) : M A := fun st => (inr a, st).

Definition fail {A : Type} (e : error) : M A := fun st => (inl e, st).

Definition bind {A B : Type} (m : M A) (k : A -> M B) : M B :=
  fun st =>
    match m st with
    | (inl e, st') => (inl e, st')
    | (inr a, st') => k a st'
    end.

Definition lift {A : Type} (r : error + A) : M A := fun st => (r, st).

(** [HTTPClient.Do req]. *)
Definition Do (req : Request) : M (Response Body) :=
  fun st =>
    let '(outcome, w) := RoundTrip req (world st) in
    (outcome, {| world := w; trace := trace st ++ [Exchange req outcome] |}).

(** [time.Sleep d]. *)
Definition time_Sleep (d : Z) (st : State) : State :=
  {| world := world st; trace := trace st ++ [Sleep d] |}.

End Effects.

Notation "x <- m ;; k" := (bind m (fun x => k))
  (at level 100, m at next level, right associativity).

(** Go [int] addition, 64 bits, two's complement. *)
Definition int_add (a b : Z) : Z :=
  (a + b + 2 ^ 63) mod 2 ^ 64 - 2 ^ 63.

(** ** Package [scraper]: the API client *)

(** [Client].  Its [HTTPClient] is the [Runtime]. *)
Record Client := {
  BaseURL : string;
  AuthToken : string;
  AccessToken : string;
  ClientID : string;
  UID : string;
  SessionCookie : string;
  BrellaMediaType : string;
}.

Definition NewClient (baseURL authToken : string) : Client :=
  {| BaseURL := baseURL; AuthToken := authToken;
     AccessToken := EmptyString; ClientID := EmptyString;
     UID := EmptyString; SessionCookie := EmptyString;
     BrellaMediaType := EmptyString |}.

Section Scraper.
Context {R : Runtime}.

(** [http.NewRequestWithContext ctx method url nil] with a valid method and
    a context that is not nil: fails on a URL that does not parse. *)
Definition NewRequestWithContext (method url : string) : error + Request :=
  match urlError url with
  | Some e => inl e
  | None => inr {| Method := method; URL := url; Header := [] |}
  end.

Definition setIf (value : string) (set : Request -> Request) (req : Request)
  : Request :=
  if negb (isEmpty value) then set req else req.

Definition newRequest (c : Client) (method path : string) : error + Request :=
  if isEmpty (BaseURL c) then inl (errorString "client BaseURL is empty")
  else
    let url := BaseURL c +:+ path in
    match NewRequestWithContext method url with
    | inl err => inl err
    | inr req =>
        let req := setIf (AuthToken c)
                     (Header_Set "Authorization" ("Bearer " +:+ AuthToken c)) req in
        let req := setIf (AccessToken c) (Header_Set "access-token" (AccessToken c)) req in
        let req := setIf (ClientID c) (Header_Set "client" (ClientID c)) req in
        let req := setIf (UID c) (Header_Set "uid" (UID c)) req in
        let req := setIf (BrellaMediaType c)
                     (Header_Set "x-brella-media-type" (BrellaMediaType c)) req in
        let req := setIf (SessionCookie c)
                     (Header_Add "Cookie" ("_brella_session=" +:+ SessionCookie c)) req in
        inr (Header_Set "Accept" "application/vnd.brella.v4+json" req)
    end.

(** The text of a non-200 answer in the error message: at most 1024 bytes
    of the body ([io.LimitReader]), trimmed. *)
Definition statusText (resp : Response Body) : string :=
  TrimSpace (substring 0 1024 (bodyBytes (RespBody resp))).

(** The loop of [ListProfiles] over [apiResp.Data]: a stub for every item
    whose id is not empty. *)
Fixpoint stubsOf (data : list string) (profiles : list Profile) : list Profile :=
  match data with
  | [] => profiles
  | item :: rest =>
      if isEmpty item then stubsOf rest profiles
      else stubsOf rest (profiles ++ [stubProfile item])
  end.

Definition listPath (eventID : string) (page pageSize : Z) : string :=
  "/api/events/" +:+ eventID
  +:+ "/attendees?ignore_networking=true&order=newest&page[number]="
  +:+ itoa page +:+ "&page[size]=" +:+ itoa pageSize +:+ "&search=".

Definition ListProfiles (c : Client) (eventID : string) (page pageSize : Z)
  : M ListProfilesResult :=
  if isEmpty eventID then fail (errorString "eventID is empty")
  else
    req <- lift (newRequest c "GET" (listPath eventID page pageSize)) ;;
    resp <- Do req ;;
    if negb (StatusCode resp =? 200) then
      fail (errorString ("unexpected status " +:+ itoa (StatusCode resp)
                         +:+ ": " +:+ statusText resp))
    else
      match decodeAttendees (RespBody resp) with
      | inl err => fail (wrapError "decoding attendees response: " err)
      | inr apiResp =>
          let profiles := stubsOf (list_Data apiResp) [] in
          let hasNext := Z.of_nat (length (list_Data apiResp)) =? pageSize in
          ret {| Profiles := profiles; HasNext := hasNext |}
      end.

Definition detailPath (eventID attendeeID : string) : string :=
  "/api/events/" +:+ eventID +:+ "/attendees/" +:+ attendeeID.

Definition GetAttendeeProfile (c : Client) (eventID attendeeID : string)
  : M Profile :=
  if isEmpty eventID then fail (errorString "eventID is empty")
  else if isEmpty attendeeID then fail (errorString "attendeeID is empty")
  else
    req <- lift (newRequest c "GET" (detailPath eventID attendeeID)) ;;
    resp <- Do req ;;
    if negb (StatusCode resp =? 200) then
      fail (errorString ("unexpected status " +:+ itoa (StatusCode resp)
                         +:+ ": " +:+ statusText resp))
    else
      match decodeDetail (RespBody resp) with
      | inl err => fail (wrapError "decoding attendee detail: " err)
      | inr apiResp => ret (mapBrellaDetailToProfile apiResp)
      end.

(** ** [internal/scraper/scraper.go] *)

Record Scraper := {
  ScraperClient : option Client;
  PageSize : Z;
  EventID : string;
  DelayBetweenRequests : Z;
}.

(** What a Go function returning [([]Profile, error)] hands back. *)
Definition Returned : Type := list Profile * option error.

(** The inner loop, [for _, stub := range res.Profiles]: either the
    function returns from inside the loop ([inl]) or the loop ends with
    the grown [all] ([inr]). *)
Fixpoint stubsLoop (c : Client) (s : Scraper) (stubs all : list Profile)
    (st : State) : (Returned + list Profile) * State :=
  match stubs with
  | [] => (inr all, st)
  | stub :: rest =>
      if isEmpty (ID stub) then stubsLoop c s rest all st
      else
        match GetAttendeeProfile c (EventID s) (ID stub) st with
        | (inl err, st1) =>
            (inl ([], Some (wrapError ("getting attendee " +:+ ID stub +:+ ": ") err)),
             st1)
        | (inr profile, st1) =>
            let all := all ++ [profile] in
            let st2 := if 0 <? DelayBetweenRequests s
                       then time_Sleep (DelayBetweenRequests s) st1 else st1 in
            stubsLoop c s rest all st2
        end
  end.

(** The outer loop, [for { ... }], from page [page] with [all] collected
    so far.  It need not end (an unlimited walk over a backend that always
    answers a full page): [fuel] bounds the number of iterations, and
    [None] is an unfinished run. *)
Fixpoint pagesLoop (fuel : nat) (c : Client) (s : Scraper) (maxPages page : Z)
    (all : list Profile) (st : State) : option (Returned * State) :=
  match fuel with
  | O => None
  | S fuel' =>
      if (0 <? maxPages) && (maxPages <? page) then Some ((all, None), st)
      else
        match ListProfiles c (EventID s) page (PageSize s) st with
        | (inl err, st1) =>
            Some (([], Some (wrapError ("listing profiles page " +:+ itoa page +:+ ": ")
                               err)), st1)
        | (inr res, st1) =>
            if Z.of_nat (length (Profiles res)) =? 0 then Some ((all, None), st1)
            else
              match stubsLoop c s (Profiles res) all st1 with
              | (inl returned, st2) => Some (returned, st2)
              | (inr all, st2) =>
                  if negb (HasNext res) then Some ((all, None), st2)
                  else pagesLoop fuel' c s maxPages (int_add page 1) all st2
              end
        end
  end.

Definition ScrapeAllProfiles (fuel : nat) (s : Scraper) (maxPages : Z)
    (st : State) : option (Returned * State) :=
  match ScraperClient s with
  | None => Some (([], Some (errorString "scraper client is nil")), st)
  | Some c =>
      if isEmpty (EventID s) then
        Some (([], Some (errorString "event ID is empty")), st)
      else
        let s := if PageSize s <=? 0
                 then {| ScraperClient := ScraperClient s; PageSize := 50;
                         EventID := EventID s;
                         DelayBetweenRequests := DelayBetweenRequests s |}
                 else s in
        let s := if DelayBetweenRequests s <? 0
                 then {| ScraperClient := ScraperClient s; PageSize := PageSize s;
                         EventID := EventID s; DelayBetweenRequests := 0 |}
                 else s in
        pagesLoop fuel c s maxPages 1 [] st
  end.

End Scraper.

(** ** Package [linkedin]: the matcher *)

(** The fields of [config.Config] the matcher reads. *)
Record Config := {
  SearchAPIKey : string;
  SearchEngineID : string;
  SearchDelay : Z;
}.

Record Matcher := {
  searchAPIKey : string;
  searchEngineID : string;
  searchDelay : Z;
  enabled : bool;
}.

Definition NewMatcher (cfg : Config) : Matcher :=
  {| searchAPIKey := SearchAPIKey cfg;
     searchEngineID := SearchEngineID cfg;
     searchDelay := SearchDelay cfg;
     enabled := negb (isEmpty (SearchAPIKey cfg))
                && negb (isEmpty (SearchEngineID cfg)) |}.

(** The loop of [searchOnce] over [sr.Items], with its two accumulators. *)
Fixpoint partitionLinks (items personal other : list string)
  : list string * list string :=
  match items with
  | [] => (personal, other)
  | item :: rest =>
      let link := TrimSpace item in
      if isEmpty link then partitionLinks rest personal other
      else if Contains link "linkedin.com/in/" then
        partitionLinks rest (personal ++ [link]) other
      else if Contains link "linkedin.com/" then
        partitionLinks rest personal (other ++ [link])
      else partitionLinks rest personal other
  end.

(** Lines 443-458 of [searchOnce]: [append(personal, other...)]. *)
Definition candidateLinks (items : list string) : list string :=
  let '(personal, other) := partitionLinks items [] [] in
  personal ++ other.

(** The URL of a search: the query string is [url.Values.Encode], keys in
    sorted order. *)
Definition searchURL (m : Matcher) (query : string) : string :=
  "https://www.googleapis.com/customsearch/v1?"
  +:+ "cx=" +:+ QueryEscape (searchEngineID m)
  +:+ "&key=" +:+ QueryEscape (searchAPIKey m)
  +:+ "&num=10"
  +:+ "&q=" +:+ QueryEscape query.

Definition searchRequest (m : Matcher) (query : string) : Request :=
  {| Method := "GET"; URL := searchURL m query; Header := [] |}.

(** [out[i].LinkedInURL = first] and
    [out[i].PossibleLinkedInURLs = alternatives]. *)
Definition setLinkedInURL (first : string) (p : Profile) : Profile :=
  {| ID := ID p; Name := Name p; Title := Title p; Company := Company p;
     Location := Location p; LinkedInURL := first;
     PossibleLinkedInURLs := PossibleLinkedInURLs p |}.

Definition setPossibleLinkedInURLs (alternatives : list string) (p : Profile)
  : Profile :=
  {| ID := ID p; Name := Name p; Title := Title p; Company := Company p;
     Location := Location p; LinkedInURL := LinkedInURL p;
     PossibleLinkedInURLs := alternatives |}.

(** What those assignments make of the profile at [out[i]]. *)
Definition enriched (urls : list string) (p : Profile) : Profile :=
  match urls with
  | [] => p
  | first :: alternatives =>
      if 1 <? Z.of_nat (length urls)
      then setPossibleLinkedInURLs alternatives (setLinkedInURL first p)
      else setLinkedInURL first p
  end.

Section Linkedin.
Context {R : Runtime}.

(** [searchOnce].  [url.Parse] of the constant endpoint and
    [http.NewRequestWithContext] on the URL printed back from it do not
    fail. *)
Definition searchOnce (m : Matcher) (query : string) : M (list string) :=
  resp <- Do (searchRequest m query) ;;
  if negb (StatusCode resp =? 200) then
    fail (errorString ("search status " +:+ itoa (StatusCode resp)
                       +:+ ": " +:+ statusText resp))
  else
    match decodeSearch (RespBody resp) with
    | inl err => fail err
    | inr sr => ret (candidateLinks (search_Items sr))
    end.

(** The [queries] slice of [findLinkedInCandidates]. *)
Definition queryVariants (p : Profile) : list string :=
  let name := TrimSpace (Name p) in
  let company := TrimSpace (Company p) in
  let queries := [] in
  let queries :=
    if negb (isEmpty name) && negb (isEmpty company)
    then queries ++ [Quote name +:+ " " +:+ Quote company +:+ " site:linkedin.com"]
    else queries in
  let queries :=
    if negb (isEmpty name)
    then (queries ++ [Quote name +:+ " site:linkedin.com"])
           ++ [name +:+ " site:linkedin.com"]
    else queries in
  queries.

(** [for idx, query := range queries]. *)
Fixpoint tryQueries (m : Matcher) (queries : list string) : M (list string) :=
  match queries with
  | [] => ret []
  | query :: rest =>
      urls <- searchOnce m query ;;
      if 0 <? Z.of_nat (length urls) then ret urls
      else tryQueries m rest
  end.

Definition findLinkedInCandidates (m : Matcher) (p : Profile) : M (list string) :=
  let queries := queryVariants p in
  if Z.of_nat (length queries) =? 0 then ret []
  else tryQueries m queries.

(** The assignments of lines 341-347 to [out[i]]. *)
Definition assignCandidates (i : nat) (urls : list string) (out : list Profile)
  : list Profile :=
  match urls with
  | [] => out
  | first :: alternatives =>
      let out := alter (setLinkedInURL first) i out in
      if 1 <? Z.of_nat (length urls)
      then alter (setPossibleLinkedInURLs alternatives) i out
      else out
  end.

(** [for i, p := range out], from index [i] with [n] elements to go. *)
Fixpoint enrichLoop (m : Matcher) (n i : nat) (out : list Profile)
    (st : State) : Returned * State :=
  match n with
  | O => ((out, None), st)
  | S n' =>
      match out !! i with
      | None => ((out, None), st)
      | Some p =>
          if negb (isEmpty (LinkedInURL p)) || isEmpty (TrimSpace (Name p))
          then enrichLoop m n' (S i) out st
          else
            match findLinkedInCandidates m p st with
            | (inl err, st1) =>
                ((out, Some (wrapError ("search error for " +:+ Quote (Name p)
                                        +:+ " (" +:+ ID p +:+ "): ") err)), st1)
            | (inr urls, st1) =>
                let out := assignCandidates i urls out in
                let st2 := if 0 <? searchDelay m
                           then time_Sleep (searchDelay m) st1 else st1 in
                enrichLoop m n' (S i) out st2
            end
      end
  end.

Definition EnrichProfiles (m : Matcher) (profiles : list Profile) (st : State)
  : Returned * State :=
  if negb (enabled m) then ((profiles, None), st)
  else
    let out := profiles in
    enrichLoop m (length out) 0 out st.

End Linkedin.

(** ** Vocabulary of the properties *)

(** The two link classes of the specification: personal links contain
    [linkedin.com/in/], other links contain [linkedin.com/] but not the
    personal pattern. *)
Definition isPersonal (link : string) : bool :=
  Contains link "linkedin.com/in/".

Definition isOther (link : string) : bool :=
  Contains link "linkedin.com/" && negb (isPersonal link).

(** Candidate order as the specification words it: the personal links,
    then the other links, each class in its original order. *)
Definition candidateOrder (links : list string) : list string :=
  List.filter isPersonal links ++ List.filter isOther links.

(** A profile the enrichment loop passes over: [LinkedInURL] already set,
    or a blank name. *)
Definition skipped (p : Profile) : bool :=
  negb (isEmpty (LinkedInURL p)) || isEmpty (TrimSpace (Name p)).

(** Two profiles that agree on every field enrichment does not own. *)
Definition sameIdentity (p q : Profile) : Prop :=
  ID q = ID p /\ Name q = Name p /\ Title q = Title p
  /\ Company q = Company p /\ Location q = Location p.

(** [stripPrefix pre s]: the rest of [s] after [pre], when [s] starts
    with it. *)
Fixpoint stripPrefix (pre s : string) : option string :=
  match pre with
  | EmptyString => Some s
  | String a pre' =>
      match s with
      | String b s' => if Ascii.eqb a b then stripPrefix pre' s' else None
      | EmptyString => None
      end
  end.

(** An identifier that is not the empty string. *)
Definition nonEmpty (id : string) : bool := negb (isEmpty id).

Section Observations.
Context {R : Runtime}.

(** The attendee a request asks the detail endpoint for, when it is a
    request to the detail endpoint of event [eventID]. *)
Definition detailFetchID (c : Client) (eventID : string) (req : Request)
  : option string :=
  stripPrefix (BaseURL c +:+ "/api/events/" +:+ eventID +:+ "/attendees/")
    (URL req).

(** The detail fetches of a trace: attendee asked for and outcome. *)
Definition detailFetches (c : Client) (eventID : string) (tr : list Event)
  : list (string * (error + Response Body)) :=
  flat_map (fun ev =>
              match ev with
              | Exchange req outcome =>
                  match detailFetchID c eventID req with
                  | Some id => [(id, outcome)]
                  | None => []
                  end
              | Sleep _ => []
              end) tr.

(** The other exchanges of a trace (for the walker: the page listings). *)
Definition listFetches (c : Client) (eventID : string) (tr : list Event)
  : list (error + Response Body) :=
  flat_map (fun ev =>
              match ev with
              | Exchange req outcome =>
                  match detailFetchID c eventID req with
                  | Some _ => []
                  | None => [outcome]
                  end
              | Sleep _ => []
              end) tr.

(** The error a client call makes of an exchange, [None] when the
    exchange is a 200 answer that decodes. *)
Definition exchangeError (decodeError : Body -> option error)
    (outcome : error + Response Body) : option error :=
  match outcome with
  | inl err => Some err
  | inr resp =>
      if negb (StatusCode resp =? 200) then
        Some (errorString ("unexpected status " +:+ itoa (StatusCode resp)
                           +:+ ": " +:+ statusText resp))
      else decodeError (RespBody resp)
  end.

Definition listDecodeError (b : Body) : option error :=
  match decodeAttendees b with
  | inl err => Some (wrapError "decoding attendees response: " err)
  | inr _ => None
  end.

Definition detailDecodeError (b : Body) : option error :=
  match decodeDetail b with
  | inl err => Some (wrapError "decoding attendee detail: " err)
  | inr _ => None
  end.

(** The error of a failed fetch of the walker, [None] for a fetch that
    succeeded (and for a pause). *)
Definition fetchError (c : Client) (eventID : string) (ev : Event)
  : option error :=
  match ev with
  | Exchange req outcome =>
      match detailFetchID c eventID req with
      | Some _ => exchangeError detailDecodeError outcome
      | None => exchangeError listDecodeError outcome
      end
  | Sleep _ => None
  end.

(** No fetch of [evs] failed. *)
Definition noFailure (c : Client) (eventID : string) (evs : list Event) : Prop :=
  Forall (fun ev => fetchError c eventID ev = None) evs.

(** A failed fetch of [evs] is the last event of [evs], and [err] is its
    error, wrapped. *)
Definition failsOnlyAtEnd (c : Client) (eventID : string) (evs : list Event)
    (err : option error) : Prop :=
  forall before ev after e,
    evs = before ++ ev :: after ->
    fetchError c eventID ev = Some e ->
    after = [] /\ exists msg, err = Some (wrapError msg e).

(** The attendee ids a listing answer carries, in order (none when it is
    not a 200 answer that decodes). *)
Definition listedIDs (outcome : error + Response Body) : list string :=
  match outcome with
  | inr resp =>
      if StatusCode resp =? 200 then
        match decodeAttendees (RespBody resp) with
        | inr apiResp => list_Data apiResp
        | inl _ => []
        end
      else []
  | inl _ => []
  end.

(** The profile a detail answer maps to. *)
Definition fetchedProfile (outcome : error + Response Body) : option Profile :=
  match outcome with
  | inr resp =>
      if StatusCode resp =? 200 then
        match decodeDetail (RespBody resp) with
        | inr apiResp => Some (mapBrellaDetailToProfile apiResp)
        | inl _ => None
        end
      else None
  | inl _ => None
  end.

(** Each output profile is what the detail fetch at the same place
    mapped to. *)
Definition fetchedIn (fetches : list (string * (error + Response Body)))
    (profiles : list Profile) : Prop :=
  Forall2 (fun p f => fetchedProfile (snd f) = Some p) profiles fetches.

(** What [searchOnce] makes of the outcome of its request. *)
Definition searchResult (outcome : error + Response Body)
  : error + list string :=
  match outcome with
  | inl err => inl err
  | inr resp =>
      if negb (StatusCode resp =? 200) then
        inl (errorString ("search status " +:+ itoa (StatusCode resp)
                          +:+ ": " +:+ statusText resp))
      else
        match decodeSearch (RespBody resp) with
        | inl err => inl err
        | inr sr => inr (candidateLinks (search_Items sr))
        end
  end.

(** The exchanges of the searches for [queries] that got [outcomes]. *)
Definition searchExchanges (m : Matcher) (queries : list string)
    (outcomes : list (error + Response Body)) : list Event :=
  zip_with (fun query outcome => Exchange (searchRequest m query) outcome)
    queries outcomes.

(** The enrichment loop read off the list of the profiles still to
    visit: what it leaves in their places, the error and the state. *)
Fixpoint enrichRest (m : Matcher) (rest : list Profile) (st : State)
  : Returned * State :=
  match rest with
  | [] => (([], None), st)
  | p :: rest' =>
      if skipped p then
        let '((out, err), st') := enrichRest m rest' st in
        ((p :: out, err), st')
      else
        match findLinkedInCandidates m p st with
        | (inl err, st1) =>
            ((p :: rest',
              Some (wrapError ("search error for " +:+ Quote (Name p)
                               +:+ " (" +:+ ID p +:+ "): ") err)), st1)
        | (inr urls, st1) =>
            let st2 := if 0 <? searchDelay m
                       then time_Sleep (searchDelay m) st1 else st1 in
            let '((out, err), st') := enrichRest m rest' st2 in
            ((enriched urls p :: out, err), st')
        end
  end.

End Observations.

(** ** A scripted runtime, for running the program on concrete answers *)

Module Scripted.

(** A body is given by what it decodes to. *)
Inductive body :=
| AttendeesJSON (ids : list string)
| DetailJSON (detail : brellaAttendeeDetailResponse)
| SearchJSON (links : list string)
| Garbage (text : string).

Definition mismatch : error := errorString "json: cannot unmarshal".

(** The quote character. *)
Definition dq : string := String (ascii_of_nat 34) EmptyString.

(** The world is the list of the answers still to come; when none is
    left the transport fails. *)
#[export] Instance runtime : Runtime := {|
  Body := body;
  bodyBytes := fun b => match b with Garbage text => text | _ => EmptyString end;
  decodeAttendees := fun b =>
    match b with AttendeesJSON ids => inr {| list_Data := ids |} | _ => inl mismatch end;
  decodeDetail := fun b =>
    match b with DetailJSON d => inr d | _ => inl mismatch end;
  decodeSearch := fun b =>
    match b with SearchJSON links => inr {| search_Items := links |} | _ => inl mismatch end;
  World := list (error + Response body);
  RoundTrip := fun _ w =>
    match w with
    | [] => (inl (errorString "EOF"), [])
    | outcome :: rest => (outcome, rest)
    end;
  Quote := fun s => dq +:+ s +:+ dq;
  urlError := fun _ => None;
|}.

Definition ok (b : body) : error + Response body :=
  inr {| StatusCode := 200; RespBody := b |}.

Definition start (script : list (error + Response body)) : State :=
  {| world := script; trace := [] |}.

Definition attributes (first last company linkedin : string) : userAttributes :=
  {| FirstName := first; LastName := last; CompanyTitle := EmptyString;
     CompanyName := company; LinkedIn := linkedin; Twitter := EmptyString;
     Website := EmptyString; TimeZone := EmptyString; CompanyCountries := [] |}.

(** The detail document of attendee [id], user [uid]. *)
Definition detailOf (id uid : string) (a : userAttributes) : body :=
  DetailJSON
    {| detail_Data :=
         {| data_ID := id; data_Type := "attendee";
            data_Relationships_User_Data := {| ref_ID := uid; ref_Type := "user" |} |};
       detail_Included := [ {| inc_ID := uid; inc_Type := "user"; inc_Attributes := a |} ] |}.

Definition client : Client := NewClient "https://api.brella.io" EmptyString.

Definition scraper (pageSize : Z) : Scraper :=
  {| ScraperClient := Some client; PageSize := pageSize; EventID := "AMS25";
     DelayBetweenRequests := 0 |}.

Definition matcher : Matcher :=
  NewMatcher {| SearchAPIKey := "key"; SearchEngineID := "cx"; SearchDelay := 0 |}.

Definition person (id name company linkedin : string) : Profile :=
  {| ID := id; Name := name; Title := EmptyString; Company := company;
     Location := EmptyString; LinkedInURL := linkedin; PossibleLinkedInURLs := [] |}.

(** A payload whose only included entry is a company, and one whose
    included user has another id. *)
Definition detail_without_user : brellaAttendeeDetailResponse :=
  {| detail_Data :=
       {| data_ID := "att-1"; data_Type := "attendee";
          data_Relationships_User_Data := {| ref_ID := "u-7"; ref_Type := "user" |} |};
     detail_Included :=
       [ {| inc_ID := "u-7"; inc_Type := "company";
            inc_Attributes := attributes "Ada" "Lovelace" "Analytical" "x" |};
         {| inc_ID := "u-8"; inc_Type := "user";
            inc_Attributes := attributes "Alan" "Turing" "NPL" "y" |} ] |}.

(** The walk of the specification's scenario: page size 2, a first page
    with [a] and [b], a second page with [c]. *)
Definition ada : userAttributes := attributes "Ada" "Lovelace" "Analytical" EmptyString.

Definition twoPages : list (error + Response body) :=
  [ ok (AttendeesJSON ["a"; "b"]%string);
    ok (detailOf "a" "u1" ada); ok (detailOf "b" "u2" ada);
    ok (AttendeesJSON ["c"]%string);
    ok (detailOf "c" "u3" ada) ].

Definition unfinished : Returned * State := (([], None), start []).

Definition walked : Returned * State :=
  default unfinished (ScrapeAllProfiles 3 (scraper 2) 0 (start twoPages)).

(** A walk whose second detail fetch is answered 500. *)
Definition brokenPage : list (error + Response body) :=
  [ ok (AttendeesJSON ["a"; "b"]%string);
    ok (detailOf "a" "u1" ada);
    inr {| StatusCode := 500; RespBody := Garbage "try later" |};
    ok (detailOf "c" "u3" ada) ].

Definition aborted : Returned * State :=
  default unfinished (ScrapeAllProfiles 3 (scraper 2) 0 (start brokenPage)).

(** Three people to enrich; the second one already has her URL. *)
Definition lovelace : Profile := person "p1" "Ada Lovelace" "Analytical" EmptyString.
Definition hopper : Profile :=
  person "p2" "Grace Hopper" "Navy" "https://linkedin.com/in/grace".
Definition turing : Profile := person "p3" " Alan Turing " EmptyString EmptyString.

(** The first search of Lovelace finds nothing, the second finds two
    links; the search of Turing is answered 429. *)
Definition searches : list (error + Response body) :=
  [ ok (SearchJSON []);
    ok (SearchJSON ["https://linkedin.com/in/ada"; "https://linkedin.com/company/ae"]%string);
    inr {| StatusCode := 429; RespBody := Garbage " quota exceeded " |} ].

Definition enrichedLovelace : Profile :=
  {| ID := "p1"; Name := "Ada Lovelace"; Title := EmptyString;
     Company := "Analytical"; Location := EmptyString;
     LinkedInURL := "https://linkedin.com/in/ada";
     PossibleLinkedInURLs := ["https://linkedin.com/company/ae"%string] |}.

End Scripted.


(** ** Package [config]: configuration from the environment *)

Module config.

(** Go [int64] multiplication, two's complement. *)
Definition int_mul (a b : Z) : Z :=
  (a * b + 2 ^ 63) mod 2 ^ 64 - 2 ^ 63.

(** [time.Millisecond], in nanoseconds, the unit of [time.Duration]. *)
Definition Millisecond : Z := 1000000.

Definition digit (c : ascii) : option Z :=
  if ((48 <=? byte c) && (byte c <=? 57))%N
  then Some (Z.of_N (byte c) - 48) else None.

Fixpoint digits (s : string) (acc : Z) : option Z :=
  match s with
  | EmptyString => Some acc
  | String c rest =>
      match digit c with
      | Some d => digits rest (10 * acc + d)
      | None => None
      end
  end.

(** [strconv.Atoi]: an optional sign and at least one decimal digit,
    nothing else, the value within 64 bits; [None] is its error. *)
Definition Atoi (s : string) : option Z :=
  let '(negative, body) :=
    match s with
    | String "+" rest => (false, rest)
    | String "-" rest => (true, rest)
    | _ => (false, s)
    end in
  if isEmpty body then None
  else
    match digits body 0 with
    | None => None
    | Some n =>
        let v := if negative then - n else n in
        if (- 2 ^ 63 <=? v) && (v <? 2 ^ 63) then Some v else None
    end.

Record Config := {
  APIBaseURL : string;
  EventID : string;
  AuthToken : string;
  AccessToken : string;
  ClientID : string;
  UID : string;
  SessionCookie : string;
  BrellaMediaType : string;
  RequestDelay : Z;
  SearchAPIKey : string;
  SearchEngineID : string;
  SearchDelay : Z;
}.

(** The two delay blocks of [FromEnv]: the value of the variable, in
    milliseconds, when it is set, parses and is not negative; one second
    when the delay is zero after that. *)
Definition delayFromEnv (d : string) : Z :=
  let delay := 0 in
  let delay :=
    if negb (isEmpty d) then
      match Atoi d with
      | Some ms => if 0 <=? ms then int_mul ms Millisecond else delay
      | None => delay
      end
    else delay in
  if delay =? 0 then int_mul 1000 Millisecond else delay.

(** [FromEnv], on the environment [getenv] ([os.Getenv]: the value of a
    variable, empty when it is not set). *)
Definition FromEnv (getenv : string -> string) : error + Config :=
  let baseURL := getenv "BITCONF_API_BASE_URL" in
  if isEmpty baseURL then inl (errorString "BITCONF_API_BASE_URL is not set")
  else
    let eventID := getenv "BITCONF_EVENT_ID" in
    if isEmpty eventID then inl (errorString "BITCONF_EVENT_ID is not set")
    else
      let authToken := getenv "BITCONF_API_AUTH_TOKEN" in
      let accessToken := getenv "BITCONF_ACCESS_TOKEN" in
      let clientID := getenv "BITCONF_CLIENT" in
      let uid := getenv "BITCONF_UID" in
      let sessionCookie := getenv "BITCONF_SESSION_COOKIE" in
      let brellaMediaType := getenv "BITCONF_BRELLA_MEDIA_TYPE" in
      let brellaMediaType :=
        if isEmpty brellaMediaType then "brella.latest"%string
        else brellaMediaType in
      let requestDelay := delayFromEnv (getenv "BITCONF_REQUEST_DELAY_MS") in
      let searchAPIKey := getenv "BITCONF_SEARCH_API_KEY" in
      let searchEngineID := getenv "BITCONF_SEARCH_ENGINE_ID" in
      let searchDelay := delayFromEnv (getenv "BITCONF_SEARCH_DELAY_MS") in
      inr {| APIBaseURL := baseURL;
             EventID := eventID;
             AuthToken := authToken;
             AccessToken := accessToken;
             ClientID := clientID;
             UID := uid;
             SessionCookie := sessionCookie;
             BrellaMediaType := brellaMediaType;
             RequestDelay := requestDelay;
             SearchAPIKey := searchAPIKey;
             SearchEngineID := searchEngineID;
             SearchDelay := searchDelay |}.

End config.

(** What [NewMatcher] reads of a [config.Config]. *)
Definition matcherConfig (cfg : config.Config) : Config :=
  {| SearchAPIKey := config.SearchAPIKey cfg;
     SearchEngineID := config.SearchEngineID cfg;
     SearchDelay := config.SearchDelay cfg |}.

(** The wiring of [main]: the client and the scraper made of a
    configuration and the two flags [-page-size] and [-page-limit]. *)
Definition mainClient (cfg : config.Config) : Client :=
  {| BaseURL := config.APIBaseURL cfg;
     AuthToken := config.AuthToken cfg;
     AccessToken := config.AccessToken cfg;
     ClientID := config.ClientID cfg;
     UID := config.UID cfg;
     SessionCookie := config.SessionCookie cfg;
     BrellaMediaType := config.BrellaMediaType cfg |}.

Definition mainScraper (cfg : config.Config) (pageSize : Z) : Scraper :=
  {| ScraperClient := Some (mainClient cfg);
     PageSize := pageSize;
     EventID := config.EventID cfg;
     DelayBetweenRequests := config.RequestDelay cfg |}.

(** ** More vocabulary *)

(** One step of trimming takes a piece, not empty, off the front. *)
Definition takesPrefix (step : string -> option string) : Prop :=
  forall s r, step s = Some r -> exists pre, s = pre +:+ r /\ pre <> EmptyString.

(** A profile the enrichment loop searches for. *)
Definition searched (p : Profile) : bool := negb (skipped p).

(** The values of the header [key] on a request, in order. *)
Definition headerValues (key : string) (req : Request) : list string :=
  map snd (List.filter (fun kv => (fst kv =? key)%string) (Header req)).

(** The pages the walker asks for in [n] iterations from [page] on:
    [page++] each time. *)
Fixpoint pagesFrom (n : nat) (page : Z) : list Z :=
  match n with
  | O => []
  | S n' => page :: pagesFrom n' (int_add page 1)
  end.

Section MoreObservations.
Context {R : Runtime}.

(** The pauses of a trace, in order. *)
Definition sleeps (tr : list Event) : list Z :=
  flat_map (fun ev => match ev with Sleep d => [d] | Exchange _ _ => [] end) tr.

(** The requests of a trace, in order. *)
Definition requests (tr : list Event) : list Request :=
  flat_map (fun ev => match ev with Exchange req _ => [req] | Sleep _ => [] end) tr.

(** The listing exchanges of a trace, with their requests. *)
Definition listExchanges (c : Client) (eventID : string) (tr : list Event)
  : list (Request * (error + Response Body)) :=
  flat_map (fun ev =>
              match ev with
              | Exchange req outcome =>
                  match detailFetchID c eventID req with
                  | Some _ => []
                  | None => [(req, outcome)]
                  end
              | Sleep _ => []
              end) tr.

(** A listing answer after which the walker goes on: as many items as
    the page size, one of them at least with an id. *)
Definition fullPage (pageSize : Z) (outcome : error + Response Body) : Prop :=
  Z.of_nat (length (listedIDs outcome)) = pageSize
  /\ List.filter nonEmpty (listedIDs outcome) <> [].

End MoreObservations.

(** ** More concrete inputs *)

Module Scenarios.

(** An environment for [FromEnv]. *)

Definition environment (name : string) : string :=
  if (name =? "BITCONF_API_BASE_URL")%string then "https://api.brella.io"
  else if (name =? "BITCONF_EVENT_ID")%string then "AMS25"
  else if (name =? "BITCONF_REQUEST_DELAY_MS")%string then "0"
  else if (name =? "BITCONF_SEARCH_DELAY_MS")%string then "250"
  else EmptyString.

(** A scraper that pauses a second and a half after each fetch. *)
Definition politeScraper : Scraper :=
  {| ScraperClient := Some Scripted.client; PageSize := 2; EventID := "AMS25";
     DelayBetweenRequests := 1500000000 |}.

Definition politeWalk : Returned * State :=
  default Scripted.unfinished
    (ScrapeAllProfiles 3 politeScraper 0 (Scripted.start Scripted.twoPages)).

(** A detail payload with a company entry carrying the user's id, then
    two users with that id. *)
Definition company_entry : includedResource :=
  {| inc_ID := "u-1"; inc_Type := "company";
     inc_Attributes := Scripted.attributes "Acme" "Corp" "Acme" EmptyString |}.

Definition first_user : includedResource :=
  {| inc_ID := "u-1"; inc_Type := "user";
     inc_Attributes :=
       {| FirstName := " Grace"; LastName := "Hopper ";
          CompanyTitle := "Rear Admiral"; CompanyName := "Navy";
          LinkedIn := "https://linkedin.com/in/grace"; Twitter := EmptyString;
          Website := EmptyString; TimeZone := "America/New_York";
          CompanyCountries := ["US"; "UK"]%string |} |}.

Definition second_user : includedResource :=
  {| inc_ID := "u-1"; inc_Type := "user";
     inc_Attributes := Scripted.attributes "Someone" "Else" "Other" EmptyString |}.

Definition detail_two_users : brellaAttendeeDetailResponse :=
  {| detail_Data :=
       {| data_ID := "att-2"; data_Type := "attendee";
          data_Relationships_User_Data := {| ref_ID := "u-1"; ref_Type := "user" |} |};
     detail_Included := [company_entry; first_user; second_user] |}.

(** The request of a client with a bearer token and nothing else. *)
Definition authorized : Request :=
  {| Method := "GET"; URL := "https://api.brella.io/api/x";
     Header := [("Authorization", "Bearer secret");
                ("Accept", "application/vnd.brella.v4+json")]%string |}.

(** The listing request of [Scripted.client] for page 1 of size 3. *)
Definition listing : Request :=
  {| Method := "GET";
     URL := "https://api.brella.io" +:+ listPath "AMS25" 1 3;
     Header := [("Accept", "application/vnd.brella.v4+json")]%string |}.

(** What [FromEnv] makes of [environment], and the walk [main] then does
    over the two pages. *)
Definition configured : config.Config :=
  match config.FromEnv environment with
  | inr cfg => cfg
  | inl _ =>
      {| config.APIBaseURL := EmptyString; config.EventID := EmptyString;
         config.AuthToken := EmptyString; config.AccessToken := EmptyString;
         config.ClientID := EmptyString; config.UID := EmptyString;
         config.SessionCookie := EmptyString; config.BrellaMediaType := EmptyString;
         config.RequestDelay := 0; config.SearchAPIKey := EmptyString;
         config.SearchEngineID := EmptyString; config.SearchDelay := 0 |}
  end.

Definition mainWalk : Returned * State :=
  default Scripted.unfinished
    (ScrapeAllProfiles 3 (mainScraper configured 2) 0 (Scripted.start Scripted.twoPages)).

(** The same environment with the search configured as well. *)
Definition searchEnvironment (name : string) : string :=
  if (name =? "BITCONF_SEARCH_API_KEY")%string then "key"
  else if (name =? "BITCONF_SEARCH_ENGINE_ID")%string then "cx"
  else if (name =? "BITCONF_SEARCH_DELAY_MS")%string then "0"
  else environment name.

Definition configuredSearch : config.Config :=
  match config.FromEnv searchEnvironment with
  | inr cfg => cfg
  | inl _ => configured
  end.

Definition mainEnrich : Returned * State :=
  EnrichProfiles (NewMatcher (matcherConfig configuredSearch))
    [Scripted.lovelace; Scripted.hopper] (Scripted.start Scripted.searches).

End Scenarios.

(** ** Vocabulary of the last properties *)


Section Backends.
Context {R : Runtime}.


End Backends.

(** A runtime whose backend is endless for page size 1: every body is
    both the listing of the one attendee [a] and a detail document. *)
Module Endless.



End Endless.
(** * Properties *)

(** ** Strings *)

Lemma isEmpty_true (s : string) : isEmpty s = true <-> s = EmptyString.
Proof. destruct s; simpl; split; congruence. Qed.

Lemma isEmpty_false (s : string) : isEmpty s = false <-> s <> EmptyString.
Proof. destruct s; simpl; split; congruence. Qed.

Example TrimSpace_ascii :
  TrimSpace (String (ascii_of_nat 9) "  Ada Lovelace " +:+ String (ascii_of_nat 10) EmptyString)
  = "Ada Lovelace"%string.
Proof. reflexivity. Qed.

(** A no-break space (C2 A0) in front and an ideographic space
    (E3 80 80) behind are trimmed as well. *)
Example TrimSpace_unicode :
  TrimSpace (String (ascii_of_nat 194) (String (ascii_of_nat 160) "Ada")
             +:+ String (ascii_of_nat 227)
                   (String (ascii_of_nat 128) (String (ascii_of_nat 128) EmptyString)))
  = "Ada"%string.
Proof. reflexivity. Qed.

Example QueryEscape_example :
  QueryEscape "a b/c" = "a+b%2Fc"%string.
Proof. reflexivity. Qed.

Lemma Contains_empty (substr : string) :
  substr <> EmptyString -> Contains EmptyString substr = false.
Proof. destruct substr; [congruence | reflexivity]. Qed.

(** ** The detail mapping *)

Lemma fillFromIncluded_no_user (profile : Profile) (userID : string)
    (included : list includedResource) :
  (forall inc, In inc included ->
               ~ (inc_Type inc = "user"%string /\ inc_ID inc = userID)) ->
  fillFromIncluded profile userID included = profile.
Proof.
  induction included as [|inc rest IH]; intros Hno; simpl; [reflexivity|].
  destruct (String.eqb_spec (inc_Type inc) "user") as [Ht|Ht]; simpl.
  - destruct (String.eqb_spec (inc_ID inc) userID) as [Hi|Hi]; simpl.
    + exfalso. apply (Hno inc); [now left | now split].
    + apply IH. intros inc' Hin. apply Hno. now right.
  - apply IH. intros inc' Hin. apply Hno. now right.
Qed.

(** C8. When no entry of [included] has type [user] and the id the primary
    record refers to, the detail mapping returns a profile with the primary
    id and every other field empty. *)
Theorem mapBrellaDetailToProfile_no_user (resp : brellaAttendeeDetailResponse) :
  (forall inc, In inc (detail_Included resp) ->
     ~ (inc_Type inc = "user"%string
        /\ inc_ID inc = ref_ID (data_Relationships_User_Data (detail_Data resp)))) ->
  mapBrellaDetailToProfile resp
  = {| ID := data_ID (detail_Data resp); Name := EmptyString;
       Title := EmptyString; Company := EmptyString; Location := EmptyString;
       LinkedInURL := EmptyString; PossibleLinkedInURLs := [] |}.
Proof.
  intros Hno. unfold mapBrellaDetailToProfile.
  destruct (isEmpty _); [reflexivity|].
  now rewrite fillFromIncluded_no_user.
Qed.

Lemma mapBrellaDetailToProfile_no_user_witness :
  mapBrellaDetailToProfile Scripted.detail_without_user
  = {| ID := "att-1"; Name := EmptyString;
       Title := EmptyString; Company := EmptyString; Location := EmptyString;
       LinkedInURL := EmptyString; PossibleLinkedInURLs := [] |}.
Proof.
  apply (mapBrellaDetailToProfile_no_user Scripted.detail_without_user).
  intros inc [<-|[<-|[]]] [Ht Hi]; simpl in *; discriminate.
Defined.

(** ** Candidate links of one search *)

Lemma partitionLinks_filter (items personal other : list string) :
  partitionLinks items personal other
  = (personal ++ List.filter isPersonal (map TrimSpace items),
     other ++ List.filter isOther (map TrimSpace items)).
Proof.
  revert personal other.
  induction items as [|item rest IH]; intros personal other; simpl.
  - now rewrite !app_nil_r.
  - change (Contains (TrimSpace item) "linkedin.com/in/")
      with (isPersonal (TrimSpace item)).
    unfold isOther at 1.
    destruct (isEmpty (TrimSpace item)) eqn:Hempty.
    + apply isEmpty_true in Hempty. rewrite Hempty. simpl. apply IH.
    + destruct (isPersonal (TrimSpace item)) eqn:Hin.
      * rewrite andb_false_r. rewrite IH. now rewrite <- app_assoc.
      * destruct (Contains (TrimSpace item) "linkedin.com/") eqn:Hany; simpl.
        -- rewrite IH. now rewrite <- app_assoc.
        -- apply IH.
Qed.

(** C1, as the code has it.  The candidate list of one search is, of the
    returned links with their surrounding white space trimmed, the
    personal ones in their original order followed by the other ones in
    their original order, anything else left out; on the three links of
    the specification's example the order is in/y, in/z, company/x. *)
Theorem candidateLinks_order :
  (forall items : list string,
      candidateLinks items = candidateOrder (map TrimSpace items))
  /\ candidateLinks ["https://linkedin.com/company/x";
                     "https://linkedin.com/in/y";
                     "https://linkedin.com/in/z"]%string
     = ["https://linkedin.com/in/y"; "https://linkedin.com/in/z";
        "https://linkedin.com/company/x"]%string.
Proof.
  split; [|reflexivity].
  intros items. unfold candidateLinks, candidateOrder.
  now rewrite partitionLinks_filter.
Qed.

(** C1, as stated, fails on a link that arrives with white space around
    it: the candidate is the trimmed link, not the link. *)
Lemma candidateLinks_order_counterexample :
  candidateLinks [" https://linkedin.com/in/y"]%string
  <> candidateOrder [" https://linkedin.com/in/y"]%string.
Proof. vm_compute. discriminate. Qed.

(** ** The client *)

Section ClientProperties.
Context {R : Runtime}.

(** C3. A listing answer with exactly [pageSize] items sets [HasNext];
    one with fewer items clears it. *)
Theorem ListProfiles_HasNext (c : Client) (eventID : string) (page pageSize : Z)
    (st : State) (req : Request) (resp : Response Body) (w : World)
    (apiResp : brellaAttendeesListResponse) :
  eventID <> EmptyString ->
  newRequest c "GET" (listPath eventID page pageSize) = inr req ->
  RoundTrip req (world st) = (inr resp, w) ->
  StatusCode resp = 200 ->
  decodeAttendees (RespBody resp) = inr apiResp ->
  exists res st',
    ListProfiles c eventID page pageSize st = (inr res, st')
    /\ (Z.of_nat (length (list_Data apiResp)) = pageSize -> HasNext res = true)
    /\ (Z.of_nat (length (list_Data apiResp)) < pageSize -> HasNext res = false).
Proof.
  intros HE Hreq Hrt Hstatus Hdecode.
  apply isEmpty_false in HE.
  unfold ListProfiles, bind, lift, Do. rewrite HE, Hreq, Hrt, Hstatus.
  simpl. rewrite Hdecode.
  eexists _, _. split; [reflexivity|]. simpl. split; intros H.
  - now apply Z.eqb_eq.
  - apply Z.eqb_neq. lia.
Qed.

End ClientProperties.

Lemma ListProfiles_HasNext_witness :
  exists res st',
    ListProfiles Scripted.client "AMS25" 1 2
      (Scripted.start [Scripted.ok (Scripted.AttendeesJSON ["a"; "b"]%string)])
    = (inr res, st')
    /\ (Z.of_nat (length ["a"; "b"]%string) = 2 -> HasNext res = true)
    /\ (Z.of_nat (length ["a"; "b"]%string) < 2 -> HasNext res = false).
Proof.
  eapply (ListProfiles_HasNext (R := Scripted.runtime) Scripted.client "AMS25" 1 2
            (Scripted.start [Scripted.ok (Scripted.AttendeesJSON ["a"; "b"]%string)])
            _ _ _ {| list_Data := ["a"; "b"]%string |}).
  - discriminate.
  - vm_compute. reflexivity.
  - vm_compute. reflexivity.
  - reflexivity.
  - reflexivity.
Defined.

(** ** The search cascade *)

Section SearchProperties.
Context {R : Runtime}.

(** One search is one exchange; its result is read off the outcome. *)
Lemma searchOnce_run (m : Matcher) (query : string) (st : State) :
  searchOnce m query st
  = (searchResult (fst (RoundTrip (searchRequest m query) (world st))),
     {| world := snd (RoundTrip (searchRequest m query) (world st));
        trace := trace st
                 ++ [Exchange (searchRequest m query)
                       (fst (RoundTrip (searchRequest m query) (world st)))] |}).
Proof.
  unfold searchOnce, bind, Do, searchResult.
  destruct (RoundTrip (searchRequest m query) (world st)) as [[err|resp] w]; simpl.
  - reflexivity.
  - destruct (negb (StatusCode resp =? 200)); [reflexivity|].
    now destruct (decodeSearch (RespBody resp)).
Qed.

Lemma searchExchanges_nil (m : Matcher) (queries : list string) :
  searchExchanges m queries [] = [].
Proof. apply zip_with_nil_r. Qed.

Lemma tryQueries_cascade (m : Matcher) (queries : list string) (st : State) :
  queries <> [] ->
  exists earlier last,
    (length (earlier ++ [last]) <= length queries)%nat
    /\ trace (snd (tryQueries m queries st))
       = trace st ++ searchExchanges m queries (earlier ++ [last])
    /\ Forall (fun outcome => searchResult outcome = inr []) earlier
    /\ fst (tryQueries m queries st) = searchResult last
    /\ (searchResult last = inr [] ->
        length (earlier ++ [last]) = length queries).
Proof.
  revert st. induction queries as [|query rest IH]; intros st Hne; [congruence|].
  simpl. unfold bind. rewrite searchOnce_run.
  set (outcome := fst (RoundTrip (searchRequest m query) (world st))).
  set (st1 := {| world := _; trace := _ |}).
  destruct (searchResult outcome) as [err|urls] eqn:Hres.
  - exists [], outcome. rewrite app_nil_l, searchExchanges_nil. simpl.
    split; [lia|]. split; [reflexivity|]. split; [constructor|].
    split; congruence.
  - destruct urls as [|url urls]; simpl.
    + destruct rest as [|query' rest'].
      * exists [], outcome. simpl.
        split; [lia|]. split; [reflexivity|]. split; [constructor|].
        split; congruence.
      * destruct (IH st1) as (earlier & last & Hlen & Htrace & Hall & Hfst & Hstop);
          [discriminate|].
        exists (outcome :: earlier), last.
        rewrite Htrace, Hfst. subst st1. simpl in *.
        rewrite <- app_assoc. simpl.
        split; [lia|]. split; [reflexivity|]. split; [now constructor|].
        split; [reflexivity|]. intros H. f_equal. auto.
    + exists [], outcome. rewrite app_nil_l, searchExchanges_nil. simpl.
      split; [lia|]. split; [reflexivity|]. split; [constructor|].
      split; congruence.
Qed.

(** C7. For a profile with a name that is not blank the query variants
    are, in this order, quoted name and quoted company (only when the
    company is not blank either), quoted name, plain name, each restricted
    to the site.  The searches made are those of the first variants, in
    that order, one exchange each; every one before the last found no
    candidate, the result is that of the last one, and a variant is the
    last one tried, with variants left, only when it found a candidate or
    failed. *)
Theorem findLinkedInCandidates_cascade (m : Matcher) (p : Profile) (st : State) :
  TrimSpace (Name p) <> EmptyString ->
  let name := TrimSpace (Name p) in
  let company := TrimSpace (Company p) in
  let both := Quote name +:+ " " +:+ Quote company +:+ " site:linkedin.com" in
  let quoted := Quote name +:+ " site:linkedin.com" in
  let plain := name +:+ " site:linkedin.com" in
  queryVariants p = (if isEmpty company then [quoted; plain]
                     else [both; quoted; plain])
  /\ exists earlier last,
      (length (earlier ++ [last]) <= length (queryVariants p))%nat
      /\ trace (snd (findLinkedInCandidates m p st))
         = trace st ++ searchExchanges m (queryVariants p) (earlier ++ [last])
      /\ Forall (fun outcome => searchResult outcome = inr []) earlier
      /\ fst (findLinkedInCandidates m p st) = searchResult last
      /\ (searchResult last = inr [] ->
          length (earlier ++ [last]) = length (queryVariants p)).
Proof.
  intros Hname. simpl.
  assert (Hq : queryVariants p
               = if isEmpty (TrimSpace (Company p))
                 then [Quote (TrimSpace (Name p)) +:+ " site:linkedin.com";
                       TrimSpace (Name p) +:+ " site:linkedin.com"]
                 else [Quote (TrimSpace (Name p)) +:+ " "
                         +:+ Quote (TrimSpace (Company p)) +:+ " site:linkedin.com";
                       Quote (TrimSpace (Name p)) +:+ " site:linkedin.com";
                       TrimSpace (Name p) +:+ " site:linkedin.com"]).
  { unfold queryVariants. apply isEmpty_false in Hname. rewrite Hname.
    now destruct (isEmpty (TrimSpace (Company p))). }
  split; [exact Hq|].
  unfold findLinkedInCandidates.
  assert (Hne : queryVariants p <> []).
  { rewrite Hq. now destruct (isEmpty (TrimSpace (Company p))). }
  destruct (queryVariants p) as [|query rest] eqn:Hqs; [congruence|].
  change (Z.of_nat (length (query :: rest)) =? 0) with false.
  apply tryQueries_cascade. discriminate.
Qed.

End SearchProperties.

(** ** The enrichment loop *)

Lemma sameIdentity_refl (p : Profile) : sameIdentity p p.
Proof. now repeat split. Qed.

Lemma sameIdentity_enriched (urls : list string) (p : Profile) :
  sameIdentity p (enriched urls p).
Proof.
  unfold enriched. destruct urls as [|first alternatives]; [apply sameIdentity_refl|].
  destruct (1 <? _); now repeat split.
Qed.

Lemma assignCandidates_alter (i : nat) (urls : list string) (out : list Profile) :
  assignCandidates i urls out = alter (enriched urls) i out.
Proof.
  unfold assignCandidates, enriched.
  destruct urls as [|first alternatives].
  - symmetry. now apply list_alter_id.
  - destruct (1 <? _); [|reflexivity].
    apply list_alter_alter_eq.
Qed.

Section EnrichProperties.
Context {R : Runtime}.

(** The index loop visits the profiles from [i] on, one after the other,
    and touches nothing before [i]. *)
Lemma enrichLoop_enrichRest (m : Matcher) (rest done : list Profile) (st : State) :
  enrichLoop m (length rest) (length done) (done ++ rest) st
  = let '((out, err), st') := enrichRest m rest st in ((done ++ out, err), st').
Proof.
  revert done st. induction rest as [|p rest IH]; intros done st; simpl.
  - reflexivity.
  - rewrite list_lookup_middle by reflexivity.
    fold (skipped p). destruct (skipped p).
    + specialize (IH (done ++ [p]) st). rewrite length_app in IH. simpl in IH.
      rewrite Nat.add_1_r, <- app_assoc in IH. simpl in IH. rewrite IH.
      destruct (enrichRest m rest st) as [[out err] st'].
      now rewrite <- app_assoc.
    + destruct (findLinkedInCandidates m p st) as [[err|urls] st1]; [reflexivity|].
      rewrite assignCandidates_alter.
      rewrite alter_app_r_alt by lia. rewrite Nat.sub_diag. simpl.
      set (st2 := if 0 <? searchDelay m then _ else _).
      specialize (IH (done ++ [enriched urls p]) st2).
      rewrite length_app in IH. simpl in IH.
      rewrite Nat.add_1_r, <- app_assoc in IH. simpl in IH. rewrite IH.
      destruct (enrichRest m rest st2) as [[out err] st'].
      now rewrite <- app_assoc.
Qed.

Lemma EnrichProfiles_enrichRest (m : Matcher) (profiles : list Profile) (st : State) :
  EnrichProfiles m profiles st
  = if enabled m then enrichRest m profiles st else ((profiles, None), st).
Proof.
  unfold EnrichProfiles. destruct (enabled m); simpl; [|reflexivity].
  pose proof (enrichLoop_enrichRest m profiles [] st) as H. simpl in H.
  rewrite H. now destruct (enrichRest m profiles st) as [[out err] st'].
Qed.

Lemma enrichRest_sameIdentity (m : Matcher) (profiles : list Profile) (st : State) :
  Forall2 sameIdentity profiles (fst (fst (enrichRest m profiles st))).
Proof.
  revert st. induction profiles as [|p rest IH]; intros st; simpl.
  - constructor.
  - destruct (skipped p).
    + specialize (IH st). destruct (enrichRest m rest st) as [[out err] st'].
      simpl in *. constructor; [apply sameIdentity_refl | assumption].
    + destruct (findLinkedInCandidates m p st) as [[err|urls] st1]; simpl.
      * apply Forall2_same_length_lookup_2; [reflexivity|].
        intros i x y Hx Hy. rewrite Hx in Hy. injection Hy as <-.
        apply sameIdentity_refl.
      * set (st2 := if 0 <? searchDelay m then _ else _).
        specialize (IH st2). destruct (enrichRest m rest st2) as [[out err] st'].
        simpl in *. constructor; [apply sameIdentity_enriched | assumption].
Qed.

(** C10. Whatever happens during the searches, [EnrichProfiles] returns a
    sequence of the length of its input, in the same order, in which each
    profile has the [ID], [Name], [Title], [Company] and [Location] of the
    input profile at the same place. *)
Theorem EnrichProfiles_frame (m : Matcher) (profiles : list Profile) (st : State) :
  let out := fst (fst (EnrichProfiles m profiles st)) in
  length out = length profiles /\ Forall2 sameIdentity profiles out.
Proof.
  assert (H : Forall2 sameIdentity profiles (fst (fst (EnrichProfiles m profiles st)))).
  { rewrite EnrichProfiles_enrichRest. destruct (enabled m).
    - apply enrichRest_sameIdentity.
    - simpl. apply Forall2_same_length_lookup_2; [reflexivity|].
      intros i x y Hx Hy. rewrite Hx in Hy. injection Hy as <-.
      apply sameIdentity_refl. }
  simpl. split; [|exact H].
  symmetry. now apply Forall2_length in H.
Qed.


Lemma enrichRest_length (m : Matcher) (profiles : list Profile) (st : State) :
  length (fst (fst (enrichRest m profiles st))) = length profiles.
Proof.
  symmetry. apply (Forall2_length sameIdentity), enrichRest_sameIdentity.
Qed.

(** The loop over [pre ++ rest] is the loop over [pre] followed, unless
    that one stopped on an error, by the loop over [rest]. *)
Lemma enrichRest_app (m : Matcher) (pre rest : list Profile) (st : State) :
  enrichRest m (pre ++ rest) st
  = match enrichRest m pre st with
    | ((pre', Some err), st1) => ((pre' ++ rest, Some err), st1)
    | ((pre', None), st1) =>
        let '((rest', err), st2) := enrichRest m rest st1 in
        ((pre' ++ rest', err), st2)
    end.
Proof.
  revert st. induction pre as [|p pre IH]; intros st; simpl.
  - now destruct (enrichRest m rest st) as [[rest' err] st2].
  - destruct (skipped p).
    + rewrite IH. destruct (enrichRest m pre st) as [[pre' [err|]] st1]; [reflexivity|].
      now destruct (enrichRest m rest st1) as [[rest' err] st2].
    + destruct (findLinkedInCandidates m p st) as [[err|urls] st1]; [reflexivity|].
      set (st2 := if 0 <? searchDelay m then _ else _).
      rewrite IH. destruct (enrichRest m pre st2) as [[pre' [err|]] st3]; [reflexivity|].
      now destruct (enrichRest m rest st3) as [[rest' err] st4].
Qed.

(** C5. A profile whose [LinkedInURL] is already set, or whose trimmed
    name is empty, comes back unchanged at its place, and the run does
    for it nothing at all: the other profiles, the error and the final
    state (hence every request sent and every pause) are those of the
    run on the input without it. *)
Theorem EnrichProfiles_skips (m : Matcher) (pre post : list Profile) (p : Profile)
    (st : State) :
  LinkedInURL p <> EmptyString \/ TrimSpace (Name p) = EmptyString ->
  EnrichProfiles m (pre ++ p :: post) st
  = let '((out, err), st') := EnrichProfiles m (pre ++ post) st in
    ((take (length pre) out ++ p :: drop (length pre) out, err), st').
Proof.
  intros Hskip.
  assert (Hs : skipped p = true).
  { unfold skipped. destruct Hskip as [H|H].
    - apply isEmpty_false in H. now rewrite H.
    - apply isEmpty_true in H. rewrite H. apply orb_true_r. }
  rewrite !EnrichProfiles_enrichRest. destruct (enabled m).
  - rewrite !enrichRest_app. simpl. rewrite Hs.
    pose proof (enrichRest_length m pre st) as Hlen.
    destruct (enrichRest m pre st) as [[pre' [err|]] st1]; simpl in Hlen.
    + rewrite <- Hlen, take_app_length, drop_app_length. reflexivity.
    + destruct (enrichRest m post st1) as [[post' err] st2].
      rewrite <- Hlen, take_app_length, drop_app_length. reflexivity.
  - now rewrite take_app_length, drop_app_length.
Qed.

(** C4. When the search for a profile fails, [EnrichProfiles] returns at
    once: the error, wrapped, together with the sequence as it stands (the
    profiles before the failing one as the run so far left them, the
    failing one and all later ones as they came in), in the state the
    failed search left, so nothing is done for any later profile. *)
Theorem EnrichProfiles_fails_fast (m : Matcher) (pre post pre' : list Profile)
    (p : Profile) (st st1 st2 : State) (err : error) :
  enabled m = true ->
  EnrichProfiles m pre st = ((pre', None), st1) ->
  LinkedInURL p = EmptyString ->
  TrimSpace (Name p) <> EmptyString ->
  findLinkedInCandidates m p st1 = (inl err, st2) ->
  EnrichProfiles m (pre ++ p :: post) st
  = ((pre' ++ p :: post,
      Some (wrapError ("search error for " +:+ Quote (Name p)
                       +:+ " (" +:+ ID p +:+ "): ") err)), st2).
Proof.
  intros Hen Hpre Hurl Hname Hfind.
  rewrite EnrichProfiles_enrichRest, Hen in *.
  rewrite enrichRest_app, Hpre. simpl.
  unfold skipped. rewrite Hurl. apply isEmpty_false in Hname. rewrite Hname.
  simpl. now rewrite Hfind.
Qed.

End EnrichProperties.

(** ** The client calls, as exchanges *)

Lemma stripPrefix_app (a b c : string) :
  stripPrefix (a +:+ b) (a +:+ c) = stripPrefix b c.
Proof.
  induction a as [|ch a IH]; simpl; [reflexivity|].
  now rewrite Ascii.eqb_refl.
Qed.

Lemma stubsOf_filter (data : list string) (profiles : list Profile) :
  stubsOf data profiles = profiles ++ map stubProfile (List.filter nonEmpty data).
Proof.
  revert profiles. induction data as [|item rest IH]; intros profiles; simpl.
  - now rewrite app_nil_r.
  - unfold nonEmpty at 1. destruct (isEmpty item); simpl; [apply IH|].
    rewrite IH. now rewrite <- app_assoc.
Qed.


Section WalkerProperties.
Context {R : Runtime}.

Lemma newRequest_URL (c : Client) (method path : string) (req : Request) :
  newRequest c method path = inr req -> URL req = BaseURL c +:+ path.
Proof.
  unfold newRequest, NewRequestWithContext, setIf.
  destruct (isEmpty (BaseURL c)); [discriminate|].
  destruct (urlError _); [discriminate|].
  intros [= <-].
  repeat match goal with |- context [if ?b then _ else _] => destruct b end;
    reflexivity.
Qed.

Lemma detailFetchID_detail (c : Client) (eventID attendeeID : string) (req : Request) :
  URL req = BaseURL c +:+ detailPath eventID attendeeID ->
  detailFetchID c eventID req = Some attendeeID.
Proof.
  intros H. unfold detailFetchID. rewrite H. unfold detailPath.
  rewrite stripPrefix_app.
  rewrite (stripPrefix_app "/api/events/").
  rewrite stripPrefix_app. reflexivity.
Qed.

Lemma detailFetchID_list (c : Client) (eventID : string) (page pageSize : Z)
    (req : Request) :
  URL req = BaseURL c +:+ listPath eventID page pageSize ->
  detailFetchID c eventID req = None.
Proof.
  intros H. unfold detailFetchID. rewrite H. unfold listPath.
  rewrite stripPrefix_app.
  rewrite (stripPrefix_app "/api/events/").
  rewrite stripPrefix_app. reflexivity.
Qed.

(** [ListProfiles] either fails before it sends anything, or makes one
    exchange, which is not a detail fetch, and decides on its outcome. *)
Lemma ListProfiles_run (c : Client) (eventID : string) (page pageSize : Z)
    (st : State) :
  (exists e, ListProfiles c eventID page pageSize st = (inl e, st))
  \/ exists req outcome w,
      detailFetchID c eventID req = None
      /\ snd (ListProfiles c eventID page pageSize st)
         = {| world := w; trace := trace st ++ [Exchange req outcome] |}
      /\ match fst (ListProfiles c eventID page pageSize st) with
         | inl e => exchangeError listDecodeError outcome = Some e
         | inr res =>
             exchangeError listDecodeError outcome = None
             /\ Profiles res = map stubProfile (List.filter nonEmpty (listedIDs outcome))
         end.
Proof.
  unfold ListProfiles, bind, lift, fail, ret.
  destruct (isEmpty eventID); [left; eauto|].
  destruct (newRequest c "GET" (listPath eventID page pageSize)) as [e|req] eqn:Hreq;
    [left; eauto|].
  right. unfold Do.
  destruct (RoundTrip req (world st)) as [outcome w].
  exists req, outcome, w.
  split; [eapply detailFetchID_list, newRequest_URL; eassumption|].
  unfold exchangeError, listDecodeError, listedIDs.
  destruct outcome as [e|resp]; simpl; [auto|].
  destruct (StatusCode resp =? 200); simpl; [|auto].
  destruct (decodeAttendees (RespBody resp)) as [e|apiResp]; simpl; [auto|].
  split; [reflexivity|]. split; [reflexivity|].
  now rewrite stubsOf_filter.
Qed.

(** [GetAttendeeProfile] either fails before it sends anything, or makes
    one exchange, a detail fetch for an attendee id that is not empty,
    and decides on its outcome. *)
Lemma GetAttendeeProfile_run (c : Client) (eventID attendeeID : string) (st : State) :
  (exists e, GetAttendeeProfile c eventID attendeeID st = (inl e, st))
  \/ exists req outcome w,
      attendeeID <> EmptyString
      /\ detailFetchID c eventID req = Some attendeeID
      /\ snd (GetAttendeeProfile c eventID attendeeID st)
         = {| world := w; trace := trace st ++ [Exchange req outcome] |}
      /\ match fst (GetAttendeeProfile c eventID attendeeID st) with
         | inl e => exchangeError detailDecodeError outcome = Some e
         | inr profile =>
             exchangeError detailDecodeError outcome = None
             /\ fetchedProfile outcome = Some profile
         end.
Proof.
  unfold GetAttendeeProfile, bind, lift, fail, ret.
  destruct (isEmpty eventID); [left; eauto|].
  destruct (isEmpty attendeeID) eqn:Hid; [left; eauto|].
  destruct (newRequest c "GET" (detailPath eventID attendeeID)) as [e|req] eqn:Hreq;
    [left; eauto|].
  right. unfold Do.
  destruct (RoundTrip req (world st)) as [outcome w].
  exists req, outcome, w.
  split; [now apply isEmpty_false|].
  split; [eapply detailFetchID_detail, newRequest_URL; eassumption|].
  unfold exchangeError, detailDecodeError, fetchedProfile.
  destruct outcome as [e|resp]; simpl; [auto|].
  destruct (StatusCode resp =? 200); simpl; [|auto].
  destruct (decodeDetail (RespBody resp)) as [e|apiResp]; simpl; auto.
Qed.

(** *** Traces *)

Lemma detailFetches_app (c : Client) (eventID : string) (evs1 evs2 : list Event) :
  detailFetches c eventID (evs1 ++ evs2)
  = detailFetches c eventID evs1 ++ detailFetches c eventID evs2.
Proof. apply flat_map_app. Qed.

Lemma listFetches_app (c : Client) (eventID : string) (evs1 evs2 : list Event) :
  listFetches c eventID (evs1 ++ evs2)
  = listFetches c eventID evs1 ++ listFetches c eventID evs2.
Proof. apply flat_map_app. Qed.

Lemma noFailure_app (c : Client) (eventID : string) (evs1 evs2 : list Event) :
  noFailure c eventID evs1 -> noFailure c eventID evs2 ->
  noFailure c eventID (evs1 ++ evs2).
Proof. unfold noFailure. intros H1 H2. apply Forall_app. now split. Qed.

Lemma failsOnlyAtEnd_noFailure (c : Client) (eventID : string) (evs : list Event)
    (err : option error) :
  noFailure c eventID evs -> failsOnlyAtEnd c eventID evs err.
Proof.
  intros Hno before ev after e -> Hfail. exfalso.
  apply Forall_app in Hno as [_ Hno]. apply Forall_cons in Hno as [Hev _].
  congruence.
Qed.

Lemma failsOnlyAtEnd_single (c : Client) (eventID : string) (ev : Event)
    (msg : string) (e : error) :
  fetchError c eventID ev = Some e ->
  failsOnlyAtEnd c eventID [ev] (Some (wrapError msg e)).
Proof.
  intros Hev before ev' after e' Heq Hfail.
  destruct before as [|x before]; simpl in Heq.
  - injection Heq as <- <-. split; [reflexivity|].
    exists msg. congruence.
  - injection Heq as _ Heq. now destruct before.
Qed.

Lemma failsOnlyAtEnd_app (c : Client) (eventID : string) (evs1 evs2 : list Event)
    (err : option error) :
  noFailure c eventID evs1 -> failsOnlyAtEnd c eventID evs2 err ->
  failsOnlyAtEnd c eventID (evs1 ++ evs2) err.
Proof.
  intros Hno H2 before ev after e Heq Hfail.
  apply app_eq_app in Heq as [l [[-> Heq]|[-> ->]]].
  - destruct l as [|x l]; simpl in Heq.
    + apply (H2 [] ev after e); [now rewrite <- Heq | assumption].
    + injection Heq as -> _. exfalso.
      apply Forall_app in Hno as [_ Hno]. apply Forall_cons in Hno as [Hev _].
      congruence.
  - now apply (H2 l ev after e).
Qed.

(** The pause after a fetch adds at most a [Sleep] to the trace. *)
Lemma pause_trace (d : Z) (st : State) :
  exists evs,
    trace (if 0 <? d then time_Sleep d st else st) = trace st ++ evs
    /\ forall c eventID,
        detailFetches c eventID evs = [] /\ listFetches c eventID evs = []
        /\ noFailure c eventID evs.
Proof.
  destruct (0 <? d).
  - exists [Sleep d]. split; [reflexivity|]. intros c eventID.
    repeat split. repeat constructor.
  - exists []. split; [simpl; now rewrite app_nil_r|]. intros c eventID.
    repeat split. constructor.
Qed.

(** *** The two loops *)

Lemma stubsLoop_run (c : Client) (s : Scraper) (stubs all : list Profile)
    (st : State) :
  exists evs,
    trace (snd (stubsLoop c s stubs all st)) = trace st ++ evs
    /\ listFetches c (EventID s) evs = []
    /\ Forall (fun f => fst f <> EmptyString) (detailFetches c (EventID s) evs)
    /\ match fst (stubsLoop c s stubs all st) with
       | inr all' =>
           noFailure c (EventID s) evs
           /\ map fst (detailFetches c (EventID s) evs)
              = List.filter nonEmpty (map ID stubs)
           /\ exists new, all' = all ++ new
                          /\ fetchedIn (detailFetches c (EventID s) evs) new
       | inl (res, err) =>
           res = [] /\ err <> None /\ failsOnlyAtEnd c (EventID s) evs err
       end.
Proof.
  revert all st. induction stubs as [|stub rest IH]; intros all st; simpl.
  - exists []. rewrite app_nil_r. repeat split; try constructor.
    exists []. rewrite app_nil_r. split; [reflexivity | constructor].
  - unfold nonEmpty at 1. destruct (isEmpty (ID stub)) eqn:Hid; simpl; [apply IH|].
    destruct (GetAttendeeProfile_run c (EventID s) (ID stub) st)
      as [[e He]|(req & outcome & w & Hne & Hdet & Hst & Hres)].
    + rewrite He. simpl. exists []. rewrite app_nil_r.
      split; [reflexivity|]. split; [reflexivity|]. split; [constructor|].
      split; [reflexivity|]. split; [discriminate|].
      apply failsOnlyAtEnd_noFailure. constructor.
    + destruct (GetAttendeeProfile c (EventID s) (ID stub) st) as [[e|profile] st1];
        simpl in Hst, Hres; subst st1.
      * simpl. exists [Exchange req outcome].
        split; [reflexivity|]. simpl. rewrite Hdet. simpl.
        split; [reflexivity|]. split; [repeat constructor; exact Hne|].
        split; [reflexivity|]. split; [discriminate|].
        apply failsOnlyAtEnd_single. simpl. now rewrite Hdet.
      * destruct Hres as [Hok Hprofile].
        set (st1 := {| world := w; trace := trace st ++ [Exchange req outcome] |}).
        destruct (pause_trace (DelayBetweenRequests s) st1) as (pause & Hpause & Hp).
        destruct (Hp c (EventID s)) as (Hpd & Hpl & Hpn).
        set (st2 := if 0 <? DelayBetweenRequests s then _ else _) in *.
        destruct (IH (all ++ [profile]) st2) as (evs & Htr & Hlist & Hids & Hrest).
        exists ([Exchange req outcome] ++ pause ++ evs).
        rewrite Htr, Hpause. subst st1. simpl trace.
        rewrite <- !app_assoc.
        split; [reflexivity|].
        rewrite !listFetches_app, !detailFetches_app, Hpd, Hpl, Hlist.
        simpl. rewrite Hdet. simpl.
        split; [reflexivity|].
        split; [constructor; [exact Hne | exact Hids]|].
        assert (Hhead : noFailure c (EventID s) ([Exchange req outcome] ++ pause)).
        { apply noFailure_app; [|exact Hpn].
          repeat constructor. simpl. now rewrite Hdet. }
        destruct (fst (stubsLoop c s rest (all ++ [profile]) st2))
          as [[res err]|all'].
        -- destruct Hrest as (Hres & Herr & Hfail).
           split; [exact Hres|]. split; [exact Herr|].
           change (Exchange req outcome :: pause ++ evs)
             with ([Exchange req outcome] ++ pause ++ evs).
           rewrite app_assoc. now apply failsOnlyAtEnd_app.
        -- destruct Hrest as (Hno & Hmap & new & Hall & Hnew).
           split; [|split].
           ++ change (Exchange req outcome :: pause ++ evs)
                with ([Exchange req outcome] ++ pause ++ evs).
              rewrite app_assoc. now apply noFailure_app.
           ++ now rewrite Hmap.
           ++ exists (profile :: new). split.
              ** rewrite Hall, <- app_assoc. reflexivity.
              ** constructor; assumption.
Qed.


(** *** Runs of the walker *)

Lemma int_add_small (a b : Z) :
  - 2 ^ 63 <= a + b < 2 ^ 63 -> int_add a b = a + b.
Proof. intros H. unfold int_add. rewrite Z.mod_small; lia. Qed.

(** More fuel does not change a finished run. *)
Lemma pagesLoop_fuel (fuel fuel' : nat) (c : Client) (s : Scraper)
    (maxPages page : Z) (all : list Profile) (st : State) (r : Returned * State) :
  (fuel <= fuel')%nat ->
  pagesLoop fuel c s maxPages page all st = Some r ->
  pagesLoop fuel' c s maxPages page all st = Some r.
Proof.
  revert fuel' page all st.
  induction fuel as [|fuel IH]; intros fuel' page all st Hle; simpl; [discriminate|].
  destruct fuel' as [|fuel']; [lia|]. simpl.
  destruct ((0 <? maxPages) && (maxPages <? page)); [auto|].
  destruct (ListProfiles c (EventID s) page (PageSize s) st) as [[e|listed] st1]; [auto|].
  destruct (Z.of_nat (length (Profiles listed)) =? 0); [auto|].
  destruct (stubsLoop c s (Profiles listed) all st1) as [[returned|all1] st2]; [auto|].
  destruct (negb (HasNext listed)); [auto|].
  apply IH. lia.
Qed.

(** Under a page ceiling the walk ends: one iteration per page up to the
    ceiling, and one more to see it passed. *)
Lemma pagesLoop_terminates (fuel : nat) (c : Client) (s : Scraper)
    (maxPages page : Z) (all : list Profile) (st : State) :
  0 < maxPages < 2 ^ 63 - 1 ->
  1 <= page <= maxPages + 1 ->
  (Z.to_nat (maxPages + 1 - page) < fuel)%nat ->
  exists r, pagesLoop fuel c s maxPages page all st = Some r.
Proof.
  intros Hmax. revert page all st.
  induction fuel as [|fuel IH]; intros page all st Hpage Hfuel; [lia|]. simpl.
  destruct (0 <? maxPages) eqn:Hpos; [|apply Z.ltb_ge in Hpos; lia]. simpl.
  destruct (maxPages <? page) eqn:Hpast; [eauto|].
  apply Z.ltb_ge in Hpast.
  destruct (ListProfiles c (EventID s) page (PageSize s) st) as [[e|listed] st1]; [eauto|].
  destruct (Z.of_nat (length (Profiles listed)) =? 0); [eauto|].
  destruct (stubsLoop c s (Profiles listed) all st1) as [[returned|all1] st2]; [eauto|].
  destruct (negb (HasNext listed)); [eauto|].
  rewrite int_add_small by lia. apply IH; lia.
Qed.

Lemma ScrapeAllProfiles_pagesLoop (fuel : nat) (s : Scraper) (c : Client)
    (maxPages : Z) (st : State) :
  ScraperClient s = Some c ->
  EventID s <> EmptyString ->
  exists s', EventID s' = EventID s
             /\ ScrapeAllProfiles fuel s maxPages st
                = pagesLoop fuel c s' maxPages 1 [] st.
Proof.
  intros Hc HE. unfold ScrapeAllProfiles. rewrite Hc.
  apply isEmpty_false in HE. rewrite HE.
  eexists. split; [|reflexivity].
  destruct (PageSize s <=? 0); simpl;
    match goal with |- context [if ?b then _ else _] => destruct b end; reflexivity.
Qed.

Lemma ScrapeAllProfiles_terminates (s : Scraper) (maxPages : Z) (st : State) :
  0 < maxPages < 2 ^ 63 - 1 ->
  exists r, ScrapeAllProfiles (S (Z.to_nat maxPages)) s maxPages st = Some r.
Proof.
  intros Hmax. destruct (ScraperClient s) as [c|] eqn:Hc.
  - destruct (isEmpty (EventID s)) eqn:HE.
    + unfold ScrapeAllProfiles. rewrite Hc, HE. eauto.
    + apply isEmpty_false in HE.
      destruct (ScrapeAllProfiles_pagesLoop (S (Z.to_nat maxPages)) s c maxPages st Hc HE)
        as (s' & _ & ->).
      apply pagesLoop_terminates; lia.
  - unfold ScrapeAllProfiles. rewrite Hc. eauto.
Qed.




(** A failed call ends the walk where it fails, whatever was collected. *)
Lemma pagesLoop_list_failure (fuel : nat) (c : Client) (s : Scraper)
    (maxPages page : Z) (all : list Profile) (st st1 : State) (e : error) :
  (0 <? maxPages) && (maxPages <? page) = false ->
  ListProfiles c (EventID s) page (PageSize s) st = (inl e, st1) ->
  pagesLoop (S fuel) c s maxPages page all st
  = Some (([], Some (wrapError ("listing profiles page " +:+ itoa page +:+ ": ") e)),
          st1).
Proof. intros Hceiling Hlist. simpl. now rewrite Hceiling, Hlist. Qed.

Lemma stubsLoop_detail_failure (c : Client) (s : Scraper)
    (before after all all' : list Profile) (stub : Profile) (st st1 st2 : State)
    (e : error) :
  stubsLoop c s before all st = (inr all', st1) ->
  ID stub <> EmptyString ->
  GetAttendeeProfile c (EventID s) (ID stub) st1 = (inl e, st2) ->
  stubsLoop c s (before ++ stub :: after) all st
  = (inl ([], Some (wrapError ("getting attendee " +:+ ID stub +:+ ": ") e)), st2).
Proof.
  revert all st. induction before as [|b before IH]; intros all st; simpl.
  - intros [= <- <-] Hid Hget. apply isEmpty_false in Hid. now rewrite Hid, Hget.
  - destruct (isEmpty (ID b)); [apply IH|].
    destruct (GetAttendeeProfile c (EventID s) (ID b) st) as [[e'|profile] st'];
      [discriminate|]. apply IH.
Qed.

End WalkerProperties.

(** ** What enrichment writes *)

Section EnrichCandidates.
Context {R : Runtime}.

(** Candidates that are found come from an exchange of the search. *)
Lemma findLinkedInCandidates_found (m : Matcher) (p : Profile) (st : State) :
  exists evs,
    trace (snd (findLinkedInCandidates m p st)) = trace st ++ evs
    /\ forall urls,
        fst (findLinkedInCandidates m p st) = inr urls -> urls <> [] ->
        exists req outcome,
          In (Exchange req outcome) evs /\ searchResult outcome = inr urls.
Proof.
  unfold findLinkedInCandidates.
  destruct (queryVariants p) as [|query rest] eqn:Hq.
  - exists []. simpl. rewrite app_nil_r. split; [reflexivity|].
    intros urls [= <-] Hne. congruence.
  - change (Z.of_nat (length (query :: rest)) =? 0) with false. cbv iota.
    destruct (tryQueries_cascade m (query :: rest) st)
      as (earlier & last & Hlen & Htr & _ & Hfst & _); [discriminate|].
    exists (searchExchanges m (query :: rest) (earlier ++ [last])).
    split; [exact Htr|].
    intros urls Hurls _. rewrite Hfst in Hurls.
    rewrite length_app in Hlen. simpl in Hlen.
    destruct (lookup_lt_is_Some_2 (query :: rest) (length earlier)) as [q Hlookup];
      [simpl; lia|].
    exists (searchRequest m q), last. split; [|exact Hurls].
    apply list_elem_of_In, (list_elem_of_lookup_2 _ (length earlier)).
    unfold searchExchanges. rewrite lookup_zip_with, Hlookup.
    rewrite list_lookup_middle by reflexivity. reflexivity.
Qed.

Lemma enrichRest_changes (m : Matcher) (profiles : list Profile) (st : State) :
  exists evs,
    trace (snd (enrichRest m profiles st)) = trace st ++ evs
    /\ forall i p q,
        profiles !! i = Some p ->
        fst (fst (enrichRest m profiles st)) !! i = Some q ->
        q = p
        \/ (LinkedInURL p = EmptyString
            /\ exists req outcome urls,
                In (Exchange req outcome) evs
                /\ searchResult outcome = inr urls
                /\ urls <> []
                /\ q = enriched urls p).
Proof.
  revert st. induction profiles as [|p0 rest IH]; intros st; simpl.
  - exists []. rewrite app_nil_r. split; [reflexivity|].
    intros i p q Hp. now rewrite lookup_nil in Hp.
  - destruct (skipped p0) eqn:Hskip.
    + destruct (IH st) as (evs & Htr & Hall).
      destruct (enrichRest m rest st) as [[out err] st']. simpl in *.
      exists evs. split; [exact Htr|].
      intros [|i] p q Hp Hq; simpl in Hp, Hq.
      * left. congruence.
      * now apply (Hall i).
    + destruct (findLinkedInCandidates_found m p0 st) as (evs1 & Htr1 & Hfound).
      destruct (findLinkedInCandidates m p0 st) as [[err|urls] st1]; simpl in Htr1, Hfound.
      * simpl. exists evs1. split; [exact Htr1|].
        intros i p q Hp Hq. left. change (p0 :: rest) with ([p0] ++ rest) in Hp.
        simpl in Hp. congruence.
      * destruct (pause_trace (searchDelay m) st1) as (pause & Hpause & _).
        set (st2 := if 0 <? searchDelay m then _ else _) in *.
        destruct (IH st2) as (evs2 & Htr2 & Hall).
        destruct (enrichRest m rest st2) as [[out err] st']. simpl in *.
        exists (evs1 ++ pause ++ evs2).
        split; [rewrite Htr2, Hpause, Htr1; now rewrite <- !app_assoc|].
        intros [|i] p q Hp Hq; simpl in Hp, Hq.
        -- injection Hp as <-. injection Hq as <-.
           destruct urls as [|first alternatives]; [now left|]. right.
           unfold skipped in Hskip. apply orb_false_iff in Hskip as [Hurl _].
           apply negb_false_iff, isEmpty_true in Hurl. split; [exact Hurl|].
           destruct (Hfound (first :: alternatives) eq_refl) as (req & outcome & Hin & Hres);
             [discriminate|].
           exists req, outcome, (first :: alternatives).
           split; [apply in_or_app; now left|].
           split; [exact Hres|]. split; [discriminate | reflexivity].
        -- destruct (Hall i p q Hp Hq) as [->|(Hurl & req & outcome & urls' & Hin & Hrest)];
             [now left|]. right. split; [exact Hurl|].
           exists req, outcome, urls'. split; [|exact Hrest].
           apply in_or_app. right. apply in_or_app. now right.
Qed.


End EnrichCandidates.


(** ** The properties on concrete runs *)

Import Scripted.

(** The scenario of the specification: three profiles, in the order
    [a], [b], [c], and five exchanges, two of them listings. *)
Example walk_two_pages :
  ScrapeAllProfiles 3 (scraper 2) 0 (start twoPages) = Some walked
  /\ map ID (fst (fst walked)) = ["a"; "b"; "c"]%string
  /\ snd (fst walked) = None
  /\ length (trace (snd walked)) = 5%nat
  /\ length (listFetches client "AMS25" (trace (snd walked))) = 2%nat.
Proof. vm_compute. repeat split. Qed.


Example walk_aborted :
  ScrapeAllProfiles 3 (scraper 2) 0 (start brokenPage) = Some aborted
  /\ fst aborted
     = ([], Some (wrapError "getting attendee b: "
                    (errorString "unexpected status 500: try later")))
  /\ length (trace (snd aborted)) = 3%nat.
Proof. vm_compute. repeat split. Qed.


Example enrich_three :
  fst (EnrichProfiles matcher [lovelace; hopper; turing] (start searches))
  = ([enrichedLovelace; hopper; turing],
     Some (wrapError ("search error for " +:+ Quote " Alan Turing " +:+ " (p3): ")
             (errorString "search status 429: quota exceeded"))).
Proof. vm_compute. reflexivity. Qed.

Lemma EnrichProfiles_skips_witness :
  EnrichProfiles matcher ([lovelace] ++ hopper :: [turing]) (start searches)
  = let '((out, err), st') := EnrichProfiles matcher ([lovelace] ++ [turing]) (start searches) in
    ((take (length [lovelace]) out ++ hopper :: drop (length [lovelace]) out, err), st').
Proof.
  apply (EnrichProfiles_skips matcher [lovelace] [turing] hopper (start searches)).
  left. discriminate.
Defined.

Lemma EnrichProfiles_fails_fast_witness :
  exists st2,
    EnrichProfiles matcher ([lovelace; hopper] ++ turing :: [lovelace]) (start searches)
    = (([enrichedLovelace; hopper] ++ turing :: [lovelace],
        Some (wrapError ("search error for " +:+ Quote (Name turing)
                         +:+ " (" +:+ ID turing +:+ "): ")
                (errorString "search status 429: quota exceeded"))), st2).
Proof.
  eexists.
  eapply (EnrichProfiles_fails_fast matcher [lovelace; hopper] [lovelace]
            [enrichedLovelace; hopper] turing (start searches)).
  - reflexivity.
  - vm_compute. reflexivity.
  - reflexivity.
  - vm_compute. discriminate.
  - vm_compute. reflexivity.
Defined.

Lemma findLinkedInCandidates_cascade_witness :
  let name := TrimSpace (Name lovelace) in
  let company := TrimSpace (Company lovelace) in
  let both := Quote name +:+ " " +:+ Quote company +:+ " site:linkedin.com" in
  let quoted := Quote name +:+ " site:linkedin.com" in
  let plain := name +:+ " site:linkedin.com" in
  queryVariants lovelace = (if isEmpty company then [quoted; plain]
                            else [both; quoted; plain])
  /\ exists earlier last,
      (length (earlier ++ [last]) <= length (queryVariants lovelace))%nat
      /\ trace (snd (findLinkedInCandidates matcher lovelace (start searches)))
         = trace (start searches)
           ++ searchExchanges matcher (queryVariants lovelace) (earlier ++ [last])
      /\ Forall (fun outcome => searchResult outcome = inr []) earlier
      /\ fst (findLinkedInCandidates matcher lovelace (start searches))
         = searchResult last
      /\ (searchResult last = inr [] ->
          length (earlier ++ [last]) = length (queryVariants lovelace)).
Proof.
  apply (findLinkedInCandidates_cascade matcher lovelace (start searches)).
  vm_compute. discriminate.
Defined.

(** The first variant found nothing, the second found two candidates, the
    third was not tried: two exchanges. *)
Example cascade_stops :
  fst (findLinkedInCandidates matcher lovelace (start searches))
  = inr ["https://linkedin.com/in/ada"; "https://linkedin.com/company/ae"]%string
  /\ length (trace (snd (findLinkedInCandidates matcher lovelace (start searches))))
     = 2%nat
  /\ length (queryVariants lovelace) = 3%nat.
Proof. vm_compute. repeat split. Qed.


(** * Further properties *)

(** ** Configuration *)

Example Atoi_examples :
  config.Atoi "250" = Some 250
  /\ config.Atoi "+7" = Some 7
  /\ config.Atoi "-5" = Some (-5)
  /\ config.Atoi "0" = Some 0
  /\ config.Atoi EmptyString = None
  /\ config.Atoi "-" = None
  /\ config.Atoi "1s" = None
  /\ config.Atoi " 5" = None
  /\ config.Atoi "9223372036854775807" = Some 9223372036854775807
  /\ config.Atoi "9223372036854775808" = None.
Proof. vm_compute. repeat split. Qed.

(** X1. [FromEnv] succeeds exactly when both the base URL and the event
    id are set to something; without the base URL the error names the
    base URL, with it but without the event id the error names the event
    id, and on success both are copied as they are. *)
Theorem FromEnv_required (getenv : string -> string) :
  let baseURL := getenv "BITCONF_API_BASE_URL" in
  let eventID := getenv "BITCONF_EVENT_ID" in
  ((exists cfg, config.FromEnv getenv = inr cfg)
   <-> baseURL <> EmptyString /\ eventID <> EmptyString)
  /\ (baseURL = EmptyString ->
      config.FromEnv getenv = inl (errorString "BITCONF_API_BASE_URL is not set"))
  /\ (baseURL <> EmptyString -> eventID = EmptyString ->
      config.FromEnv getenv = inl (errorString "BITCONF_EVENT_ID is not set"))
  /\ (forall cfg, config.FromEnv getenv = inr cfg ->
        config.APIBaseURL cfg = baseURL /\ config.EventID cfg = eventID).
Proof.
  simpl. unfold config.FromEnv.
  destruct (isEmpty (getenv "BITCONF_API_BASE_URL")) eqn:Hb.
  - apply isEmpty_true in Hb. rewrite Hb.
    split; [split; [intros [cfg H]; discriminate | intros [H _]; congruence]|].
    split; [reflexivity|]. split; [congruence|]. discriminate.
  - apply isEmpty_false in Hb.
    destruct (isEmpty (getenv "BITCONF_EVENT_ID")) eqn:He.
    + apply isEmpty_true in He. rewrite He.
      split; [split; [intros [cfg H]; discriminate | intros [_ H]; congruence]|].
      split; [congruence|]. split; [reflexivity|]. discriminate.
    + apply isEmpty_false in He.
      split; [split; [auto | eauto]|].
      split; [congruence|]. split; [congruence|].
      intros cfg [= <-]. simpl. auto.
Qed.

Lemma delayFromEnv_nonzero (d : string) :
  config.delayFromEnv d <> 0 /\ - 2 ^ 63 <= config.delayFromEnv d < 2 ^ 63.
Proof.
  assert (Hrange : forall a b, - 2 ^ 63 <= config.int_mul a b < 2 ^ 63).
  { intros a b. unfold config.int_mul.
    pose proof (Z.mod_pos_bound (a * b + 2 ^ 63) (2 ^ 64)). lia. }
  unfold config.delayFromEnv.
  match goal with |- context [if ?b =? 0 then _ else _] =>
    destruct (Z.eqb_spec b 0) as [H0|H0] end.
  - split; [|apply Hrange]. vm_compute. discriminate.
  - split; [exact H0|].
    destruct (negb (isEmpty d)); [|lia].
    destruct (config.Atoi d) as [ms|]; [|lia].
    destruct (0 <=? ms); [apply Hrange | lia].
Qed.

(** X2. Whatever the environment holds, a configuration [FromEnv]
    returns has a base URL, an event id and a media type that are not
    empty (the media type is [brella.latest] when the variable is not
    set) and two delays that are not zero and fit 64 bits. *)
Theorem FromEnv_invariants (getenv : string -> string) (cfg : config.Config) :
  config.FromEnv getenv = inr cfg ->
  config.APIBaseURL cfg <> EmptyString
  /\ config.EventID cfg <> EmptyString
  /\ config.BrellaMediaType cfg <> EmptyString
  /\ (getenv "BITCONF_BRELLA_MEDIA_TYPE" = EmptyString ->
      config.BrellaMediaType cfg = "brella.latest"%string)
  /\ config.RequestDelay cfg <> 0
  /\ config.SearchDelay cfg <> 0
  /\ - 2 ^ 63 <= config.RequestDelay cfg < 2 ^ 63
  /\ - 2 ^ 63 <= config.SearchDelay cfg < 2 ^ 63.
Proof.
  unfold config.FromEnv.
  destruct (isEmpty (getenv "BITCONF_API_BASE_URL")) eqn:Hb; [discriminate|].
  destruct (isEmpty (getenv "BITCONF_EVENT_ID")) eqn:He; [discriminate|].
  intros [= <-]. simpl.
  apply isEmpty_false in Hb, He.
  split; [exact Hb|]. split; [exact He|].
  split.
  { destruct (isEmpty (getenv "BITCONF_BRELLA_MEDIA_TYPE")) eqn:Hm;
      [discriminate | now apply isEmpty_false]. }
  split.
  { intros Hm. apply isEmpty_true in Hm. now rewrite Hm. }
  pose proof (delayFromEnv_nonzero (getenv "BITCONF_REQUEST_DELAY_MS")).
  pose proof (delayFromEnv_nonzero (getenv "BITCONF_SEARCH_DELAY_MS")).
  tauto.
Qed.

(** An environment with the two required variables and a request delay
    of zero. *)
Lemma FromEnv_invariants_witness :
  exists cfg,
    config.FromEnv Scenarios.environment = inr cfg
    /\ config.APIBaseURL cfg <> EmptyString
    /\ config.EventID cfg <> EmptyString
    /\ config.BrellaMediaType cfg <> EmptyString
    /\ (Scenarios.environment "BITCONF_BRELLA_MEDIA_TYPE" = EmptyString ->
        config.BrellaMediaType cfg = "brella.latest"%string)
    /\ config.RequestDelay cfg <> 0
    /\ config.SearchDelay cfg <> 0
    /\ - 2 ^ 63 <= config.RequestDelay cfg < 2 ^ 63
    /\ - 2 ^ 63 <= config.SearchDelay cfg < 2 ^ 63.
Proof.
  eexists. split; [vm_compute; reflexivity|].
  eapply (FromEnv_invariants Scenarios.environment).
  vm_compute. reflexivity.
Defined.

(** X3. A delay variable that holds a number of milliseconds between 1
    and 9223372036854 gives that many milliseconds; one that is not set,
    does not parse, or holds zero or a negative number gives one second:
    no value of the variable gives a delay of zero. *)
Theorem delayFromEnv_value (d : string) :
  (forall ms, config.Atoi d = Some ms -> 0 < ms <= 9223372036854 ->
              config.delayFromEnv d = ms * 1000000)
  /\ (config.Atoi d = None \/ (exists ms, config.Atoi d = Some ms /\ ms <= 0) ->
      config.delayFromEnv d = 1000000000).
Proof.
  assert (Hempty : isEmpty d = true -> config.Atoi d = None).
  { intros H. apply isEmpty_true in H. now subst d. }
  unfold config.delayFromEnv. split.
  - intros ms Hms Hrange.
    destruct (isEmpty d) eqn:Hd; [rewrite Hempty in Hms; congruence|].
    simpl. rewrite Hms.
    destruct (Z.leb_spec 0 ms); [|lia].
    assert (Hmul : config.int_mul ms config.Millisecond = ms * 1000000).
    { unfold config.int_mul, config.Millisecond. rewrite Z.mod_small; lia. }
    rewrite Hmul. destruct (Z.eqb_spec (ms * 1000000) 0); [lia | reflexivity].
  - intros [Hnone|(ms & Hms & Hle)].
    + rewrite Hnone. now destruct (negb (isEmpty d)).
    + rewrite Hms. destruct (negb (isEmpty d)); [|reflexivity].
      destruct (Z.leb_spec 0 ms); [|reflexivity].
      assert (ms = 0) by lia. subst ms. reflexivity.
Qed.

Lemma delayFromEnv_value_witness :
  config.delayFromEnv "250" = 250 * 1000000
  /\ config.delayFromEnv "0" = 1000000000.
Proof.
  split.
  - apply (proj1 (delayFromEnv_value "250") 250); [reflexivity | lia].
  - apply (proj2 (delayFromEnv_value "0")). right. exists 0.
    split; [reflexivity | lia].
Defined.

Lemma FromEnv_required_witness :
  exists cfg, config.FromEnv Scenarios.environment = inr cfg.
Proof.
  apply (proj1 (FromEnv_required Scenarios.environment)).
  split; vm_compute; discriminate.
Defined.

(** ** More on the candidate links *)

Lemma prefix_shorter (a b s : string) :
  String.prefix (a +:+ b) s = true -> String.prefix a s = true.
Proof.
  revert s. induction a as [|ch a IH]; intros s; simpl.
  - now destruct s.
  - destruct s as [|ch' s]; simpl; [discriminate|].
    destruct (ascii_dec ch ch'); [apply IH | discriminate].
Qed.

Lemma Contains_unfold (s substr : string) :
  Contains s substr
  = String.prefix substr s
    || match s with
       | EmptyString => false
       | String _ rest => Contains rest substr
       end.
Proof. now destruct s. Qed.

Lemma isPersonal_linkedin (link : string) :
  isPersonal link = true -> Contains link "linkedin.com/" = true.
Proof.
  unfold isPersonal. induction link as [|ch link IH].
  - intros H. vm_compute in H. discriminate.
  - rewrite (Contains_unfold (String ch link) "linkedin.com/in/").
    rewrite (Contains_unfold (String ch link) "linkedin.com/").
    intros H. apply orb_true_iff in H as [H|H]; apply orb_true_iff.
    + left. now apply (prefix_shorter "linkedin.com/" "in/").
    + right. now apply IH.
Qed.

Lemma candidateLinks_elements (items : list string) (u : string) :
  In u (candidateLinks items) ->
  (exists item, In item items /\ u = TrimSpace item)
  /\ Contains u "linkedin.com/" = true.
Proof.
  unfold candidateLinks. rewrite partitionLinks_filter. simpl.
  intros H. apply in_app_or in H as [H|H];
    apply filter_In in H as [Hin Hclass]; apply in_map_iff in Hin as (item & <- & Hitem).
  - split; [eauto|]. now apply isPersonal_linkedin.
  - split; [eauto|]. unfold isOther in Hclass.
    now apply andb_true_iff in Hclass as [Hany _].
Qed.

(** X4. Every candidate of a search is one of the returned links,
    trimmed, is not empty and contains [linkedin.com/]; when one of the
    returned links is personal the first candidate, the one enrichment
    takes as the URL, is personal, and it is the first personal link
    returned. *)
Theorem candidateLinks_sound (items : list string) :
  (forall u, In u (candidateLinks items) ->
      (exists item, In item items /\ u = TrimSpace item)
      /\ u <> EmptyString
      /\ Contains u "linkedin.com/" = true)
  /\ (forall before item after,
        items = before ++ item :: after ->
        Forall (fun l => isPersonal (TrimSpace l) = false) before ->
        isPersonal (TrimSpace item) = true ->
        exists alternatives,
          candidateLinks items = TrimSpace item :: alternatives).
Proof.
  split.
  - intros u Hu. destruct (candidateLinks_elements items u Hu) as [Hitem Hcontains].
    split; [exact Hitem|]. split; [|exact Hcontains].
    intros ->. discriminate.
  - intros before item after -> Hbefore Hitem.
    unfold candidateLinks. rewrite partitionLinks_filter. simpl.
    rewrite map_app, List.filter_app. simpl. rewrite Hitem.
    assert (Hnone : List.filter isPersonal (map TrimSpace before) = []).
    { induction Hbefore as [|l before Hl _ IH]; simpl; [reflexivity|].
      now rewrite Hl. }
    rewrite Hnone. simpl. eauto.
Qed.

Lemma candidateLinks_sound_witness :
  exists alternatives,
    candidateLinks ["https://example.org/ada"; " https://linkedin.com/company/ae";
                    "https://www.linkedin.com/in/ada "; "https://linkedin.com/in/other"]%string
    = TrimSpace "https://www.linkedin.com/in/ada " :: alternatives.
Proof.
  apply (proj2 (candidateLinks_sound _)
           ["https://example.org/ada"; " https://linkedin.com/company/ae"]%string
           "https://www.linkedin.com/in/ada "%string
           ["https://linkedin.com/in/other"]%string).
  - reflexivity.
  - repeat constructor.
  - reflexivity.
Defined.

(** ** More on enrichment *)

Section EnrichMore.
Context {R : Runtime}.

(** X5. A matcher made by [NewMatcher] is enabled exactly when the
    search key and the engine id are both set; with one of them missing
    [EnrichProfiles] returns its input as it is, without an error, and
    does nothing: no request, no pause. *)
Theorem EnrichProfiles_disabled (cfg : Config) (profiles : list Profile) (st : State) :
  (enabled (NewMatcher cfg) = true
   <-> SearchAPIKey cfg <> EmptyString /\ SearchEngineID cfg <> EmptyString)
  /\ (SearchAPIKey cfg = EmptyString \/ SearchEngineID cfg = EmptyString ->
      EnrichProfiles (NewMatcher cfg) profiles st = ((profiles, None), st)).
Proof.
  unfold EnrichProfiles, NewMatcher. simpl. split.
  - rewrite andb_true_iff, !negb_true_iff, !isEmpty_false. reflexivity.
  - intros [H|H]; apply isEmpty_true in H; rewrite H; simpl;
      [reflexivity | now rewrite andb_false_r].
Qed.

Lemma enrichRest_all_skipped (m : Matcher) (profiles : list Profile) (st : State) :
  Forall (fun p => skipped p = true) profiles ->
  enrichRest m profiles st = ((profiles, None), st).
Proof.
  induction 1 as [|p rest Hp _ IH]; simpl; [reflexivity|].
  now rewrite Hp, IH.
Qed.

(** X6. On a sequence in which every profile has its [LinkedInURL] or a
    blank name [EnrichProfiles] is the identity and does nothing: no
    request, no pause. *)
Theorem EnrichProfiles_nothing_to_do (m : Matcher) (profiles : list Profile)
    (st : State) :
  Forall (fun p => LinkedInURL p <> EmptyString \/ TrimSpace (Name p) = EmptyString)
    profiles ->
  EnrichProfiles m profiles st = ((profiles, None), st).
Proof.
  intros Hall. rewrite EnrichProfiles_enrichRest.
  destruct (enabled m); [|reflexivity].
  apply enrichRest_all_skipped.
  eapply Forall_impl; [exact Hall|]. intros p [H|H]; unfold skipped.
  - apply isEmpty_false in H. now rewrite H.
  - apply isEmpty_true in H. rewrite H. apply orb_true_r.
Qed.

End EnrichMore.

Lemma EnrichProfiles_disabled_witness :
  EnrichProfiles
    (NewMatcher {| SearchAPIKey := "key"; SearchEngineID := EmptyString; SearchDelay := 5 |})
    [Scripted.lovelace] (Scripted.start Scripted.searches)
  = (([Scripted.lovelace], None), Scripted.start Scripted.searches).
Proof.
  apply (proj2 (EnrichProfiles_disabled _ _ _)). right. reflexivity.
Defined.

Lemma EnrichProfiles_nothing_to_do_witness :
  EnrichProfiles Scripted.matcher
    [Scripted.hopper; Scripted.person "p9" "  " "Acme" EmptyString]
    (Scripted.start Scripted.searches)
  = (([Scripted.hopper; Scripted.person "p9" "  " "Acme" EmptyString], None),
     Scripted.start Scripted.searches).
Proof.
  apply EnrichProfiles_nothing_to_do.
  apply Forall_cons; split; [left; discriminate|].
  apply Forall_cons; split; [right; reflexivity | constructor].
Defined.

(** ** What enrichment sends and writes *)

Section EnrichEffects.
Context {R : Runtime}.

Lemma requests_app (evs1 evs2 : list Event) :
  requests (evs1 ++ evs2) = requests evs1 ++ requests evs2.
Proof. apply flat_map_app. Qed.

Lemma sleeps_app (evs1 evs2 : list Event) :
  sleeps (evs1 ++ evs2) = sleeps evs1 ++ sleeps evs2.
Proof. apply flat_map_app. Qed.

Lemma pause_events (d : Z) (st : State) :
  trace (if 0 <? d then time_Sleep d st else st)
  = trace st ++ (if 0 <? d then [Sleep d] else []).
Proof. destruct (0 <? d); simpl; [reflexivity | now rewrite app_nil_r]. Qed.

Lemma searchExchanges_requests (m : Matcher) (queries : list string)
    (outcomes : list (error + Response Body)) :
  (length outcomes <= length queries)%nat ->
  requests (searchExchanges m queries outcomes)
  = map (searchRequest m) (take (length outcomes) queries)
  /\ sleeps (searchExchanges m queries outcomes) = [].
Proof.
  revert outcomes. induction queries as [|query rest IH]; intros outcomes Hlen.
  - destruct outcomes; simpl in *; [now split | lia].
  - destruct outcomes as [|outcome outcomes]; [now split|].
    simpl in Hlen. destruct (IH outcomes) as [Hreq Hsl]; [lia|].
    unfold searchExchanges in *. simpl. now rewrite Hreq, Hsl.
Qed.

Lemma queryVariants_length (p : Profile) : (length (queryVariants p) <= 3)%nat.
Proof.
  unfold queryVariants.
  destruct (negb (isEmpty (TrimSpace (Name p))));
    destruct (negb (isEmpty (TrimSpace (Company p)))); simpl; lia.
Qed.

(** The searches for one profile: the requests of the first variants, at
    most three, and no pause. *)
Lemma findLinkedInCandidates_requests (m : Matcher) (p : Profile) (st : State) :
  exists evs n,
    trace (snd (findLinkedInCandidates m p st)) = trace st ++ evs
    /\ (n <= 3)%nat
    /\ requests evs = map (searchRequest m) (take n (queryVariants p))
    /\ sleeps evs = [].
Proof.
  unfold findLinkedInCandidates.
  pose proof (queryVariants_length p) as Hthree.
  destruct (queryVariants p) as [|query rest] eqn:Hq.
  - exists [], 0%nat. simpl. rewrite app_nil_r. repeat split. lia.
  - change (Z.of_nat (length (query :: rest)) =? 0) with false. cbv iota.
    destruct (tryQueries_cascade m (query :: rest) st)
      as (earlier & last & Hlen & Htr & _); [discriminate|].
    destruct (searchExchanges_requests m (query :: rest) (earlier ++ [last]) Hlen)
      as [Hreq Hsl].
    exists (searchExchanges m (query :: rest) (earlier ++ [last])),
      (length (earlier ++ [last])).
    split; [exact Htr|]. split; [lia|]. now split.
Qed.

Lemma enrichRest_effects (m : Matcher) (profiles : list Profile) (st : State) :
  exists evs,
    trace (snd (enrichRest m profiles st)) = trace st ++ evs
    /\ (length (requests evs) <= 3 * length (List.filter searched profiles))%nat
    /\ Forall (fun req => exists query, req = searchRequest m query) (requests evs)
    /\ Forall (fun d => d = searchDelay m /\ 0 < d) (sleeps evs)
    /\ (snd (fst (enrichRest m profiles st)) = None ->
        sleeps evs = if 0 <? searchDelay m
                     then repeat (searchDelay m) (length (List.filter searched profiles))
                     else []).
Proof.
  revert st. induction profiles as [|p rest IH]; intros st; simpl.
  - exists []. rewrite app_nil_r. simpl.
    split; [reflexivity|]. split; [lia|]. split; [constructor|].
    split; [constructor|]. intros _. now destruct (0 <? searchDelay m).
  - change (searched p) with (negb (skipped p)). destruct (skipped p); simpl.
    + destruct (IH st) as (evs & Htr & Hcount & Hreq & Hsl & Hok).
      destruct (enrichRest m rest st) as [[out err] st']. simpl in *.
      exists evs. split; [exact Htr|]. split; [lia|].
      split; [exact Hreq|]. split; [exact Hsl | exact Hok].
    + destruct (findLinkedInCandidates_requests m p st)
        as (evs1 & n & Htr1 & Hn & Hreq1 & Hsl1).
      assert (Hreqs1 : Forall (fun req => exists query, req = searchRequest m query)
                         (requests evs1)).
      { rewrite Hreq1. apply Forall_forall. intros req Hin.
        apply list_elem_of_In, in_map_iff in Hin as (query & <- & _). eauto. }
      assert (Hlen1 : (length (requests evs1) <= 3)%nat).
      { rewrite Hreq1, length_map, length_take. lia. }
      destruct (findLinkedInCandidates m p st) as [[err|urls] st1]; simpl in Htr1.
      * simpl. exists evs1. split; [exact Htr1|]. split; [lia|].
        split; [exact Hreqs1|]. rewrite Hsl1. split; [constructor | discriminate].
      * pose proof (pause_events (searchDelay m) st1) as Hpause.
        set (st2 := if 0 <? searchDelay m then time_Sleep _ _ else _) in *.
        destruct (IH st2) as (evs & Htr & Hcount & Hreq & Hsl & Hok).
        destruct (enrichRest m rest st2) as [[out err] st']. simpl in *.
        exists (evs1 ++ (if 0 <? searchDelay m then [Sleep (searchDelay m)] else []) ++ evs).
        split; [rewrite Htr, Hpause, Htr1; now rewrite <- !app_assoc|].
        rewrite !requests_app, !sleeps_app, Hsl1. simpl.
        destruct (0 <? searchDelay m) eqn:Hd; simpl.
        -- rewrite length_app. split; [lia|].
           split; [apply Forall_app; now split|].
           apply Z.ltb_lt in Hd.
           split; [constructor; [now split | exact Hsl]|].
           intros Hnone. now rewrite (Hok Hnone).
        -- rewrite length_app. split; [lia|].
           split; [apply Forall_app; now split|].
           split; [exact Hsl|]. intros Hnone. now rewrite (Hok Hnone).
Qed.

(** X7. A run of [EnrichProfiles] sends search requests only, at most
    three for each profile that has neither a [LinkedInURL] nor a blank
    name, and pauses only for the configured delay; when the matcher is
    enabled and the run ends without an error it pauses once for each
    such profile if the delay is positive and never otherwise. *)
Theorem EnrichProfiles_effects (m : Matcher) (profiles : list Profile)
    (st : State) (evs : list Event) :
  trace (snd (EnrichProfiles m profiles st)) = trace st ++ evs ->
  (length (requests evs) <= 3 * length (List.filter searched profiles))%nat
  /\ Forall (fun req => exists query, req = searchRequest m query) (requests evs)
  /\ Forall (fun d => d = searchDelay m /\ 0 < d) (sleeps evs)
  /\ (enabled m = true ->
      snd (fst (EnrichProfiles m profiles st)) = None ->
      sleeps evs = if 0 <? searchDelay m
                   then repeat (searchDelay m) (length (List.filter searched profiles))
                   else []).
Proof.
  rewrite EnrichProfiles_enrichRest. destruct (enabled m).
  - destruct (enrichRest_effects m profiles st) as (evs' & Htr & H).
    rewrite Htr. intros Heq. apply app_inv_head in Heq. subst evs'.
    destruct H as (H1 & H2 & H3 & H4). auto.
  - simpl. intros Heq. rewrite <- (app_nil_r (trace st)) in Heq at 1.
    apply app_inv_head in Heq. subst evs. simpl.
    split; [lia|]. split; [constructor|]. split; [constructor | discriminate].
Qed.

Lemma searchResult_candidates (outcome : error + Response Body) (urls : list string) :
  searchResult outcome = inr urls -> exists items, urls = candidateLinks items.
Proof.
  unfold searchResult. destruct outcome as [e|resp]; [discriminate|].
  destruct (negb (StatusCode resp =? 200)); [discriminate|].
  destruct (decodeSearch (RespBody resp)) as [e|sr]; [discriminate|].
  intros [= <-]. eauto.
Qed.

(** X8. What enrichment writes are LinkedIn links: in the output a
    profile either is the input profile, or has a [LinkedInURL] that is
    not empty and contains [linkedin.com/], with [PossibleLinkedInURLs]
    either those of the input or links containing [linkedin.com/]; so a
    profile that enrichment has changed is passed over by a later run. *)
Theorem EnrichProfiles_writes_links (m : Matcher) (profiles : list Profile)
    (st : State) (i : nat) (p q : Profile) :
  profiles !! i = Some p ->
  fst (fst (EnrichProfiles m profiles st)) !! i = Some q ->
  q = p
  \/ (LinkedInURL q <> EmptyString
      /\ Contains (LinkedInURL q) "linkedin.com/" = true
      /\ (PossibleLinkedInURLs q = PossibleLinkedInURLs p
          \/ Forall (fun u => Contains u "linkedin.com/" = true)
               (PossibleLinkedInURLs q))
      /\ skipped q = true).
Proof.
  intros Hp Hq. rewrite EnrichProfiles_enrichRest in Hq. destruct (enabled m).
  - destruct (enrichRest_changes m profiles st) as (evs & _ & Hall).
    destruct (Hall i p q Hp Hq)
      as [->|(_ & req & outcome & urls & _ & Hres & Hne & ->)]; [now left|]. right.
    apply searchResult_candidates in Hres as [items ->].
    destruct (candidateLinks items) as [|first alternatives] eqn:Hc; [congruence|].
    assert (Hsound : forall u, In u (first :: alternatives) ->
                       u <> EmptyString /\ Contains u "linkedin.com/" = true).
    { intros u Hu. rewrite <- Hc in Hu.
      destruct (candidateLinks_elements items u Hu) as [_ Hcontains].
      split; [|exact Hcontains]. intros ->. discriminate. }
    destruct (Hsound first (or_introl eq_refl)) as [Hfirst Hlinked].
    assert (Hurl : LinkedInURL (enriched (first :: alternatives) p) = first).
    { unfold enriched. now destruct (1 <? _). }
    rewrite Hurl. split; [exact Hfirst|]. split; [exact Hlinked|]. split.
    + unfold enriched. destruct (1 <? _); simpl; [right | now left].
      apply Forall_forall. intros u Hu. apply list_elem_of_In in Hu.
      apply Hsound. now right.
    + unfold skipped. rewrite Hurl. apply isEmpty_false in Hfirst.
      now rewrite Hfirst.
  - left. simpl in Hq. congruence.
Qed.

End EnrichEffects.

Lemma EnrichProfiles_effects_witness :
  exists evs,
    trace (snd (EnrichProfiles Scripted.matcher [Scripted.lovelace; Scripted.hopper]
                  (Scripted.start Scripted.searches))) = [] ++ evs
    /\ (length (requests evs)
        <= 3 * length (List.filter searched [Scripted.lovelace; Scripted.hopper]))%nat
    /\ length (requests evs) = 2%nat.
Proof.
  eexists. split; [vm_compute; reflexivity|]. split; [|reflexivity].
  eapply (proj1 (EnrichProfiles_effects Scripted.matcher
                   [Scripted.lovelace; Scripted.hopper]
                   (Scripted.start Scripted.searches) _ _)).
  Unshelve. vm_compute. reflexivity.
Defined.

Lemma EnrichProfiles_writes_links_witness :
  Scripted.enrichedLovelace = Scripted.lovelace
  \/ (LinkedInURL Scripted.enrichedLovelace <> EmptyString
      /\ Contains (LinkedInURL Scripted.enrichedLovelace) "linkedin.com/" = true
      /\ (PossibleLinkedInURLs Scripted.enrichedLovelace
          = PossibleLinkedInURLs Scripted.lovelace
          \/ Forall (fun u => Contains u "linkedin.com/" = true)
               (PossibleLinkedInURLs Scripted.enrichedLovelace))
      /\ skipped Scripted.enrichedLovelace = true).
Proof.
  apply (EnrichProfiles_writes_links Scripted.matcher
           [Scripted.lovelace; Scripted.hopper; Scripted.turing]
           (Scripted.start Scripted.searches) 0 Scripted.lovelace
           Scripted.enrichedLovelace).
  - reflexivity.
  - vm_compute. reflexivity.
Defined.

(** ** The pages the walker asks for *)

Section WalkerPages.
Context {R : Runtime}.

Lemma listExchanges_app (c : Client) (eventID : string) (evs1 evs2 : list Event) :
  listExchanges c eventID (evs1 ++ evs2)
  = listExchanges c eventID evs1 ++ listExchanges c eventID evs2.
Proof. apply flat_map_app. Qed.

Lemma listExchanges_fetches (c : Client) (eventID : string) (evs : list Event) :
  map snd (listExchanges c eventID evs) = listFetches c eventID evs.
Proof.
  induction evs as [|ev evs IH]; [reflexivity|].
  change (ev :: evs) with ([ev] ++ evs).
  rewrite listExchanges_app, listFetches_app, map_app, IH. f_equal.
  destruct ev as [req outcome|d]; simpl; [|reflexivity].
  now destruct (detailFetchID c eventID req).
Qed.

Lemma listExchanges_none (c : Client) (eventID : string) (evs : list Event) :
  listFetches c eventID evs = [] -> listExchanges c eventID evs = [].
Proof.
  rewrite <- listExchanges_fetches. now destruct (listExchanges c eventID evs).
Qed.

(** [ListProfiles], with the request it sends and the continuation flag
    it computes. *)
Lemma ListProfiles_exchange (c : Client) (eventID : string) (page pageSize : Z)
    (st : State) :
  (exists e, ListProfiles c eventID page pageSize st = (inl e, st))
  \/ exists req outcome w,
      newRequest c "GET" (listPath eventID page pageSize) = inr req
      /\ detailFetchID c eventID req = None
      /\ snd (ListProfiles c eventID page pageSize st)
         = {| world := w; trace := trace st ++ [Exchange req outcome] |}
      /\ match fst (ListProfiles c eventID page pageSize st) with
         | inl e => True
         | inr res =>
             Profiles res = map stubProfile (List.filter nonEmpty (listedIDs outcome))
             /\ HasNext res = (Z.of_nat (length (listedIDs outcome)) =? pageSize)
         end.
Proof.
  unfold ListProfiles, bind, lift, fail, ret.
  destruct (isEmpty eventID); [left; eauto|].
  destruct (newRequest c "GET" (listPath eventID page pageSize)) as [e|req] eqn:Hreq;
    [left; eauto|].
  right. unfold Do.
  destruct (RoundTrip req (world st)) as [outcome w].
  exists req, outcome, w.
  split; [reflexivity|].
  split; [eapply detailFetchID_list, newRequest_URL; eassumption|].
  unfold listedIDs.
  destruct outcome as [e|resp]; simpl; [auto|].
  destruct (StatusCode resp =? 200); simpl; [|auto].
  destruct (decodeAttendees (RespBody resp)) as [e|apiResp]; simpl; [auto|].
  split; [reflexivity|]. split; [|reflexivity].
  now rewrite stubsOf_filter.
Qed.

Lemma pagesLoop_listing (fuel : nat) (c : Client) (s : Scraper) (maxPages page : Z)
    (all res : list Profile) (err : option error) (st st' : State) :
  pagesLoop fuel c s maxPages page all st = Some ((res, err), st') ->
  exists evs,
    trace st' = trace st ++ evs
    /\ Forall2 (fun p x => newRequest c "GET" (listPath (EventID s) p (PageSize s))
                          = inr (fst x))
         (pagesFrom (length (listExchanges c (EventID s) evs)) page)
         (listExchanges c (EventID s) evs)
    /\ (forall before x after,
          listExchanges c (EventID s) evs = before ++ x :: after ->
          after <> [] -> fullPage (PageSize s) (snd x))
    /\ (0 < maxPages < 2 ^ 63 - 1 -> 1 <= page <= maxPages + 1 ->
        Z.of_nat (length (listExchanges c (EventID s) evs)) <= maxPages + 1 - page).
Proof.
  revert page all st. induction fuel as [|fuel IH]; intros page all st; simpl;
    [discriminate|].
  assert (Hnone : forall st0 : State, exists evs,
             trace st0 = trace st0 ++ evs
             /\ Forall2 (fun p x => newRequest c "GET" (listPath (EventID s) p (PageSize s))
                                   = inr (fst x))
                  (pagesFrom (length (listExchanges c (EventID s) evs)) page)
                  (listExchanges c (EventID s) evs)
             /\ (forall before x after,
                   listExchanges c (EventID s) evs = before ++ x :: after ->
                   after <> [] -> fullPage (PageSize s) (snd x))
             /\ (0 < maxPages < 2 ^ 63 - 1 -> 1 <= page <= maxPages + 1 ->
                 Z.of_nat (length (listExchanges c (EventID s) evs))
                 <= maxPages + 1 - page)).
  { intros st0. exists []. rewrite app_nil_r. simpl.
    split; [reflexivity|]. split; [constructor|]. split; [|lia].
    intros before x after H. now destruct before. }
  destruct ((0 <? maxPages) && (maxPages <? page)) eqn:Hceiling.
  { intros [= <- <- <-]. apply Hnone. }
  destruct (ListProfiles_exchange c (EventID s) page (PageSize s) st)
    as [[e He]|(req & outcome & w & Hreq & Hlist & Hst & Hres)].
  { rewrite He. intros [= <- <- <-]. apply Hnone. }
  assert (Hone : forall evs,
             listExchanges c (EventID s) evs = [] ->
             let L := listExchanges c (EventID s) ([Exchange req outcome] ++ evs) in
             Forall2 (fun p x => newRequest c "GET" (listPath (EventID s) p (PageSize s))
                                 = inr (fst x))
               (pagesFrom (length L) page) L
             /\ (forall before x after,
                   L = before ++ x :: after -> after <> [] ->
                   fullPage (PageSize s) (snd x))
             /\ (0 < maxPages < 2 ^ 63 - 1 -> 1 <= page <= maxPages + 1 ->
                 Z.of_nat (length L) <= maxPages + 1 - page)).
  { intros evs Hevs. rewrite listExchanges_app, Hevs. simpl. rewrite Hlist. simpl.
    split; [repeat constructor; exact Hreq|]. split.
    - intros before x after H. destruct before as [|y before]; simpl in H.
      + injection H as _ <-. congruence.
      + injection H as _ H. now destruct before.
    - intros Hmax Hpage. apply andb_false_iff in Hceiling as [H|H].
      + apply Z.ltb_ge in H. lia.
      + apply Z.ltb_ge in H. lia. }
  destruct (ListProfiles c (EventID s) page (PageSize s) st) as [[e|listed] st1];
    simpl in Hst, Hres; subst st1.
  { intros [= <- <- <-]. exists [Exchange req outcome].
    split; [reflexivity|]. apply (Hone []). reflexivity. }
  destruct Hres as [Hprofiles Hnext].
  set (st1 := {| world := w; trace := trace st ++ [Exchange req outcome] |}).
  destruct (Z.of_nat (length (Profiles listed)) =? 0) eqn:Hzero.
  { intros [= <- <- <-]. exists [Exchange req outcome].
    split; [reflexivity|]. apply (Hone []). reflexivity. }
  destruct (stubsLoop_run c s (Profiles listed) all st1)
    as (evs & Htr & Hnolist & _).
  apply listExchanges_none in Hnolist.
  destruct (stubsLoop c s (Profiles listed) all st1) as [[returned|all1] st2];
    simpl in Htr.
  { intros [= _ <-]. exists ([Exchange req outcome] ++ evs).
    rewrite Htr. subst st1. simpl trace. rewrite <- app_assoc.
    split; [reflexivity|]. now apply Hone. }
  destruct (HasNext listed) eqn:Hhas; simpl.
  2:{ intros [= <- <- <-]. exists ([Exchange req outcome] ++ evs).
      rewrite Htr. subst st1. simpl trace. rewrite <- app_assoc.
      split; [reflexivity|]. now apply Hone. }
  intros Hrun. apply IH in Hrun as (evs' & Htr' & Hpages & Hfull & Hbound).
  exists (([Exchange req outcome] ++ evs) ++ evs').
  rewrite Htr', Htr. subst st1. simpl trace. rewrite <- !app_assoc.
  split; [reflexivity|].
  rewrite !listExchanges_app, Hnolist. simpl. rewrite Hlist. simpl.
  split; [constructor; [exact Hreq | exact Hpages]|].
  split.
  - intros before x after H Hafter. destruct before as [|y before]; simpl in H.
    + injection H as <- _. simpl. split.
      * rewrite Hnext in Hhas. now apply Z.eqb_eq.
      * apply Z.eqb_neq in Hzero. rewrite Hprofiles, length_map in Hzero.
        intros Hnil. rewrite Hnil in Hzero. simpl in Hzero. lia.
    + injection H as _ H. now apply (Hfull before x after).
  - intros Hmax Hpage.
    assert (Hle : page <= maxPages).
    { apply andb_false_iff in Hceiling as [H|H]; apply Z.ltb_ge in H; lia. }
    rewrite int_add_small in Hbound by lia.
    specialize (Hbound Hmax). lia.
Qed.

Lemma pagesFrom_lookup (n i : nat) (page p : Z) :
  pagesFrom n page !! i = Some p ->
  - 2 ^ 63 <= page -> page + Z.of_nat i < 2 ^ 63 ->
  p = page + Z.of_nat i.
Proof.
  revert i page. induction n as [|n IH]; intros i page; simpl; [discriminate|].
  destruct i as [|i]; simpl.
  - intros [= <-] _ _. lia.
  - intros Hp Hlo Hhi. apply IH in Hp.
    + rewrite int_add_small in Hp by lia. lia.
    + rewrite int_add_small by lia. lia.
    + rewrite int_add_small by lia. lia.
Qed.

(** The scraper the loop runs with: the fields of [s], but 50 for a page
    size that is not positive and 0 for a negative delay. *)
Lemma ScrapeAllProfiles_defaults (fuel : nat) (s : Scraper) (c : Client)
    (maxPages : Z) (st : State) :
  ScraperClient s = Some c ->
  EventID s <> EmptyString ->
  exists s', EventID s' = EventID s
             /\ PageSize s' = (if PageSize s <=? 0 then 50 else PageSize s)
             /\ DelayBetweenRequests s'
                = (if DelayBetweenRequests s <? 0 then 0 else DelayBetweenRequests s)
             /\ ScrapeAllProfiles fuel s maxPages st
                = pagesLoop fuel c s' maxPages 1 [] st.
Proof.
  intros Hc HE. unfold ScrapeAllProfiles. rewrite Hc.
  apply isEmpty_false in HE. rewrite HE.
  eexists. split; [|split; [|split; [|reflexivity]]].
  - destruct (PageSize s <=? 0); simpl;
      match goal with |- context [if ?b then _ else _] => destruct b end; reflexivity.
  - destruct (PageSize s <=? 0); simpl;
      match goal with |- context [if ?b then _ else _] => destruct b end; reflexivity.
  - destruct (PageSize s <=? 0); simpl;
      destruct (DelayBetweenRequests s <? 0); reflexivity.
Qed.

Lemma ScrapeAllProfiles_listing (fuel : nat) (s : Scraper) (c : Client)
    (maxPages : Z) (all : list Profile) (err : option error) (st st' : State)
    (evs : list Event) :
  ScraperClient s = Some c ->
  ScrapeAllProfiles fuel s maxPages st = Some ((all, err), st') ->
  trace st' = trace st ++ evs ->
  let size := if PageSize s <=? 0 then 50 else PageSize s in
  Forall2 (fun p x => newRequest c "GET" (listPath (EventID s) p size) = inr (fst x))
    (pagesFrom (length (listExchanges c (EventID s) evs)) 1)
    (listExchanges c (EventID s) evs)
  /\ (forall before x after,
        listExchanges c (EventID s) evs = before ++ x :: after ->
        after <> [] -> fullPage size (snd x))
  /\ (0 < maxPages < 2 ^ 63 - 1 ->
      Z.of_nat (length (listExchanges c (EventID s) evs)) <= maxPages).
Proof.
  intros Hc Hrun Htr. simpl.
  destruct (isEmpty (EventID s)) eqn:HE.
  - unfold ScrapeAllProfiles in Hrun. rewrite Hc, HE in Hrun.
    injection Hrun as <- <- <-.
    rewrite <- (app_nil_r (trace st)) in Htr at 1.
    apply app_inv_head in Htr. subst evs. simpl.
    split; [constructor|]. split; [|lia].
    intros before x after H. now destruct before.
  - apply isEmpty_false in HE.
    destruct (ScrapeAllProfiles_defaults fuel s c maxPages st Hc HE)
      as (s' & HE' & Hsize & _ & Heq).
    rewrite Heq in Hrun. apply pagesLoop_listing in Hrun
      as (evs' & Htr' & Hpages & Hfull & Hbound).
    rewrite Htr' in Htr. apply app_inv_head in Htr. subst evs'.
    rewrite HE', Hsize in *.
    split; [exact Hpages|]. split; [exact Hfull|].
    intros Hmax. specialize (Hbound Hmax). lia.
Qed.

(** X9. The walker asks for the pages 1, 2, 3, ... in this order, each
    with the request [newRequest] builds for the listing path of that
    page, with the configured page size, or 50 when that is not
    positive. *)
Theorem ScrapeAllProfiles_pages (fuel : nat) (s : Scraper) (c : Client)
    (maxPages : Z) (all : list Profile) (err : option error) (st st' : State)
    (evs : list Event) (i : nat) (x : Request * (error + Response Body)) :
  ScraperClient s = Some c ->
  ScrapeAllProfiles fuel s maxPages st = Some ((all, err), st') ->
  trace st' = trace st ++ evs ->
  listExchanges c (EventID s) evs !! i = Some x ->
  Z.of_nat i < 2 ^ 63 - 1 ->
  let size := if PageSize s <=? 0 then 50 else PageSize s in
  newRequest c "GET" (listPath (EventID s) (1 + Z.of_nat i) size) = inr (fst x)
  /\ URL (fst x) = BaseURL c +:+ listPath (EventID s) (1 + Z.of_nat i) size.
Proof.
  intros Hc Hrun Htr Hx Hi. simpl.
  destruct (ScrapeAllProfiles_listing fuel s c maxPages all err st st' evs Hc Hrun Htr)
    as (Hpages & _ & _).
  destruct (Forall2_lookup_r _ _ _ _ _ Hpages Hx) as (p & Hp & Hreq).
  apply pagesFrom_lookup in Hp; [|lia|lia]. subst p.
  split; [exact Hreq|]. now apply newRequest_URL in Hreq.
Qed.

(** X10. When the walk goes on after a listing answer, that answer had
    exactly as many items as the page size and one id at least that is
    not empty: every listing answer of a run but the last one is such a
    full page. *)
Theorem ScrapeAllProfiles_full_pages (fuel : nat) (s : Scraper) (c : Client)
    (maxPages : Z) (all : list Profile) (err : option error) (st st' : State)
    (evs : list Event) (before after : list (Request * (error + Response Body)))
    (x : Request * (error + Response Body)) :
  ScraperClient s = Some c ->
  ScrapeAllProfiles fuel s maxPages st = Some ((all, err), st') ->
  trace st' = trace st ++ evs ->
  listExchanges c (EventID s) evs = before ++ x :: after ->
  after <> [] ->
  let size := if PageSize s <=? 0 then 50 else PageSize s in
  Z.of_nat (length (listedIDs (snd x))) = size
  /\ List.filter nonEmpty (listedIDs (snd x)) <> [].
Proof.
  intros Hc Hrun Htr HL Hafter.
  destruct (ScrapeAllProfiles_listing fuel s c maxPages all err st st' evs Hc Hrun Htr)
    as (_ & Hfull & _).
  exact (Hfull before x after HL Hafter).
Qed.

(** X11. Under a page ceiling between 1 and 2^63 - 2 the walk ends, within
    one iteration more than the ceiling, and sends at most as many
    listing requests as the ceiling allows. *)
Theorem ScrapeAllProfiles_ceiling (s : Scraper) (maxPages : Z) (st : State) :
  0 < maxPages < 2 ^ 63 - 1 ->
  exists r,
    ScrapeAllProfiles (S (Z.to_nat maxPages)) s maxPages st = Some r
    /\ forall c evs,
        ScraperClient s = Some c ->
        trace (snd r) = trace st ++ evs ->
        Z.of_nat (length (listExchanges c (EventID s) evs)) <= maxPages.
Proof.
  intros Hmax.
  destruct (ScraperClient s) as [c|] eqn:Hc.
  - destruct (isEmpty (EventID s)) eqn:HE.
    + unfold ScrapeAllProfiles. rewrite Hc, HE. eexists. split; [reflexivity|].
      intros c' evs _ Htr. simpl in Htr.
      rewrite <- (app_nil_r (trace st)) in Htr at 1.
      apply app_inv_head in Htr. subst evs. simpl. lia.
    + apply isEmpty_false in HE.
      destruct (ScrapeAllProfiles_defaults (S (Z.to_nat maxPages)) s c maxPages st Hc HE)
        as (s' & HE' & _ & _ & Heq).
      destruct (pagesLoop_terminates (S (Z.to_nat maxPages)) c s' maxPages 1 [] st)
        as [[[all err] st'] Hrun]; [lia|lia|lia|].
      exists ((all, err), st'). rewrite Heq. split; [exact Hrun|].
      intros c' evs [= <-] Htr. simpl in Htr. rewrite <- Heq in Hrun.
      destruct (ScrapeAllProfiles_listing _ s c maxPages all err st st' evs
                  Hc Hrun Htr) as (_ & _ & Hbound). auto.
  - unfold ScrapeAllProfiles. rewrite Hc. eexists. split; [reflexivity|].
    intros c evs Hc'. discriminate.
Qed.

End WalkerPages.

Lemma ScrapeAllProfiles_pages_witness :
  exists x,
    listExchanges Scripted.client "AMS25" (trace (snd Scripted.walked)) !! 1%nat = Some x
    /\ newRequest Scripted.client "GET" (listPath "AMS25" 2 2) = inr (fst x)
    /\ URL (fst x) = BaseURL Scripted.client +:+ listPath "AMS25" 2 2.
Proof.
  eexists. split; [vm_compute; reflexivity|].
  eapply (ScrapeAllProfiles_pages 3 (Scripted.scraper 2) Scripted.client 0
            _ _ (Scripted.start Scripted.twoPages) (snd Scripted.walked)
            (trace (snd Scripted.walked)) 1).
  - reflexivity.
  - vm_compute. reflexivity.
  - reflexivity.
  - vm_compute. reflexivity.
  - vm_compute. reflexivity.
Defined.

Lemma ScrapeAllProfiles_full_pages_witness :
  Z.of_nat (length (listedIDs (Scripted.ok (Scripted.AttendeesJSON ["a"; "b"]%string)))) = 2
  /\ List.filter nonEmpty (listedIDs (Scripted.ok (Scripted.AttendeesJSON ["a"; "b"]%string)))
     <> [].
Proof.
  eapply (ScrapeAllProfiles_full_pages 3 (Scripted.scraper 2) Scripted.client 0
            _ _ (Scripted.start Scripted.twoPages) (snd Scripted.walked)
            (trace (snd Scripted.walked)) [] _
            (_, Scripted.ok (Scripted.AttendeesJSON ["a"; "b"]%string))).
  - reflexivity.
  - vm_compute. reflexivity.
  - reflexivity.
  - vm_compute. reflexivity.
  - discriminate.
Defined.

Lemma ScrapeAllProfiles_ceiling_witness :
  exists r,
    ScrapeAllProfiles (S (Z.to_nat 1)) (Scripted.scraper 2) 1
      (Scripted.start Scripted.twoPages) = Some r
    /\ forall c evs,
        ScraperClient (Scripted.scraper 2) = Some c ->
        trace (snd r) = trace (Scripted.start Scripted.twoPages) ++ evs ->
        Z.of_nat (length (listExchanges c (EventID (Scripted.scraper 2)) evs)) <= 1.
Proof.
  apply (ScrapeAllProfiles_ceiling (Scripted.scraper 2) 1
           (Scripted.start Scripted.twoPages)).
  lia.
Defined.

(** ** The pauses of the walker *)

Section WalkerPauses.
Context {R : Runtime}.

Lemma GetAttendeeProfile_sleeps (c : Client) (eventID attendeeID : string)
    (st : State) :
  exists evs,
    trace (snd (GetAttendeeProfile c eventID attendeeID st)) = trace st ++ evs
    /\ sleeps evs = [].
Proof.
  destruct (GetAttendeeProfile_run c eventID attendeeID st)
    as [[e He]|(req & outcome & w & _ & _ & Hst & _)].
  - rewrite He. exists []. simpl. now rewrite app_nil_r.
  - rewrite Hst. exists [Exchange req outcome]. now split.
Qed.

Lemma ListProfiles_sleeps (c : Client) (eventID : string) (page pageSize : Z)
    (st : State) :
  exists evs,
    trace (snd (ListProfiles c eventID page pageSize st)) = trace st ++ evs
    /\ sleeps evs = [].
Proof.
  destruct (ListProfiles_run c eventID page pageSize st)
    as [[e He]|(req & outcome & w & _ & Hst & _)].
  - rewrite He. exists []. simpl. now rewrite app_nil_r.
  - rewrite Hst. exists [Exchange req outcome]. now split.
Qed.

Lemma stubsLoop_sleeps (c : Client) (s : Scraper) (stubs all : list Profile)
    (st : State) :
  exists evs new,
    trace (snd (stubsLoop c s stubs all st)) = trace st ++ evs
    /\ sleeps evs = (if 0 <? DelayBetweenRequests s
                     then repeat (DelayBetweenRequests s) (length new) else [])
    /\ match fst (stubsLoop c s stubs all st) with
       | inr all' => all' = all ++ new
       | inl _ => True
       end.
Proof.
  revert all st. induction stubs as [|stub rest IH]; intros all st; simpl.
  - exists [], []. rewrite !app_nil_r. simpl.
    split; [reflexivity|]. split; [now destruct (0 <? _) | reflexivity].
  - destruct (isEmpty (ID stub)); [apply IH|].
    destruct (GetAttendeeProfile_sleeps c (EventID s) (ID stub) st)
      as (evs1 & Htr1 & Hsl1).
    destruct (GetAttendeeProfile c (EventID s) (ID stub) st) as [[e|profile] st1];
      simpl in Htr1.
    + simpl. exists evs1, []. rewrite Hsl1. simpl.
      split; [exact Htr1|]. split; [now destruct (0 <? _) | exact I].
    + pose proof (pause_events (DelayBetweenRequests s) st1) as Hpause.
      set (st2 := if 0 <? DelayBetweenRequests s then time_Sleep _ _ else _) in *.
      destruct (IH (all ++ [profile]) st2) as (evs & new & Htr & Hsl & Hres).
      exists (evs1 ++ (if 0 <? DelayBetweenRequests s
                       then [Sleep (DelayBetweenRequests s)] else []) ++ evs),
        (profile :: new).
      split; [rewrite Htr, Hpause, Htr1; now rewrite <- !app_assoc|].
      rewrite !sleeps_app, Hsl1, Hsl. simpl.
      split; [now destruct (0 <? DelayBetweenRequests s)|].
      destruct (fst (stubsLoop c s rest (all ++ [profile]) st2)); [exact I|].
      rewrite Hres, <- app_assoc. reflexivity.
Qed.

Lemma sleeps_repeat (d : Z) (n : nat) :
  Forall (fun x => x = d /\ 0 < x) (if 0 <? d then repeat d n else []).
Proof.
  destruct (Z.ltb_spec 0 d); [|constructor].
  apply Forall_forall. intros x Hx. apply list_elem_of_In, repeat_spec in Hx.
  subst x. now split.
Qed.

Lemma pagesLoop_sleeps (fuel : nat) (c : Client) (s : Scraper) (maxPages page : Z)
    (all res : list Profile) (err : option error) (st st' : State) :
  pagesLoop fuel c s maxPages page all st = Some ((res, err), st') ->
  exists evs n,
    trace st' = trace st ++ evs
    /\ sleeps evs = (if 0 <? DelayBetweenRequests s
                     then repeat (DelayBetweenRequests s) n else [])
    /\ (err = None -> length res = (length all + n)%nat).
Proof.
  revert page all st. induction fuel as [|fuel IH]; intros page all st; simpl;
    [discriminate|].
  assert (Hnil : (if 0 <? DelayBetweenRequests s
                  then repeat (DelayBetweenRequests s) 0 else []) = [])
    by now destruct (0 <? _).
  destruct ((0 <? maxPages) && (maxPages <? page)).
  { intros [= <- <- <-]. exists [], 0%nat. rewrite app_nil_r, Hnil.
    repeat split. lia. }
  destruct (ListProfiles_sleeps c (EventID s) page (PageSize s) st)
    as (evs1 & Htr1 & Hsl1).
  destruct (ListProfiles c (EventID s) page (PageSize s) st) as [[e|listed] st1];
    simpl in Htr1.
  { intros [= <- <- <-]. exists evs1, 0%nat. rewrite Hsl1, Hnil.
    split; [exact Htr1|]. split; [reflexivity | discriminate]. }
  destruct (Z.of_nat (length (Profiles listed)) =? 0).
  { intros [= <- <- <-]. exists evs1, 0%nat. rewrite Hsl1, Hnil.
    split; [exact Htr1|]. split; [reflexivity|]. intros _. lia. }
  destruct (stubsLoop_sleeps c s (Profiles listed) all st1)
    as (evs2 & new & Htr2 & Hsl2 & Hres2).
  destruct (stubsLoop_run c s (Profiles listed) all st1) as (evsR & _ & _ & _ & Hloop).
  destruct (stubsLoop c s (Profiles listed) all st1) as [[[res1 err1]|all1] st2];
    simpl in Htr2, Hres2, Hloop.
  { intros [= <- <- <-]. exists (evs1 ++ evs2), (length new).
    rewrite Htr2, Htr1, sleeps_app, Hsl1, Hsl2, <- app_assoc.
    split; [reflexivity|]. split; [reflexivity|].
    destruct Hloop as (_ & Herr & _). intros Hnone. congruence. }
  destruct (negb (HasNext listed)).
  { intros [= <- <- <-]. exists (evs1 ++ evs2), (length new).
    rewrite Htr2, Htr1, sleeps_app, Hsl1, Hsl2, <- app_assoc.
    split; [reflexivity|]. split; [reflexivity|]. intros _.
    rewrite Hres2, length_app. reflexivity. }
  intros Hrun. apply IH in Hrun as (evs3 & n & Htr3 & Hsl3 & Hlen3).
  exists ((evs1 ++ evs2) ++ evs3), (length new + n)%nat.
  rewrite Htr3, Htr2, Htr1, !sleeps_app, Hsl1, Hsl2, Hsl3, <- !app_assoc.
  split; [reflexivity|].
  split; [destruct (0 <? DelayBetweenRequests s); [now rewrite repeat_app | reflexivity]|].
  intros Hnone. rewrite (Hlen3 Hnone), Hres2, length_app. lia.
Qed.

End WalkerPauses.

Lemma ScrapeAllProfiles_sleeps {R : Runtime} (fuel : nat) (s : Scraper)
    (maxPages : Z) (all : list Profile) (err : option error) (st st' : State)
    (evs : list Event) :
  ScrapeAllProfiles fuel s maxPages st = Some ((all, err), st') ->
  trace st' = trace st ++ evs ->
  exists n,
    sleeps evs = (if 0 <? DelayBetweenRequests s
                  then repeat (DelayBetweenRequests s) n else [])
    /\ (err = None -> length all = n).
Proof.
  intros Hrun Htr.
  assert (Hnil : ScrapeAllProfiles fuel s maxPages st
                 = Some (([], err), st) -> err <> None ->
                 exists n,
                   sleeps evs = (if 0 <? DelayBetweenRequests s
                                 then repeat (DelayBetweenRequests s) n else [])
                   /\ (err = None -> length all = n)).
  { intros Heq Herr. rewrite Heq in Hrun. injection Hrun as <- <-.
    rewrite <- (app_nil_r (trace st)) in Htr at 1. apply app_inv_head in Htr.
    subst evs. exists 0%nat. split; [now destruct (0 <? _) | congruence]. }
  destruct (ScraperClient s) as [c|] eqn:Hc.
  2:{ unfold ScrapeAllProfiles in Hrun, Hnil. rewrite Hc in Hrun, Hnil.
      injection Hrun as <- <- <-. now apply Hnil. }
  destruct (isEmpty (EventID s)) eqn:HE.
  { unfold ScrapeAllProfiles in Hrun, Hnil. rewrite Hc, HE in Hrun, Hnil.
    injection Hrun as <- <- <-. now apply Hnil. }
  clear Hnil. apply isEmpty_false in HE.
  destruct (ScrapeAllProfiles_defaults fuel s c maxPages st Hc HE)
    as (s' & _ & _ & Hdelay & Heq).
  rewrite Heq in Hrun. apply pagesLoop_sleeps in Hrun as (evs' & n & Htr' & Hsl & Hlen).
  rewrite Htr' in Htr. apply app_inv_head in Htr. subst evs'.
  exists n. split; [|exact Hlen].
  rewrite Hsl, Hdelay.
  destruct (Z.ltb_spec (DelayBetweenRequests s) 0) as [Hneg|Hpos]; [|reflexivity].
  simpl. destruct (Z.ltb_spec 0 (DelayBetweenRequests s)); [lia | reflexivity].
Qed.

(** X12. The walker pauses only for its configured delay, and only when
    that is positive; a walk that returns its profiles has then paused
    once for each profile it returns, and with a delay of zero or less no
    run pauses at all. *)
Theorem ScrapeAllProfiles_pauses {R : Runtime} (fuel : nat) (s : Scraper)
    (maxPages : Z) (all : list Profile) (err : option error) (st st' : State)
    (evs : list Event) :
  ScrapeAllProfiles fuel s maxPages st = Some ((all, err), st') ->
  trace st' = trace st ++ evs ->
  Forall (fun d => d = DelayBetweenRequests s /\ 0 < d) (sleeps evs)
  /\ (DelayBetweenRequests s <= 0 -> sleeps evs = [])
  /\ (0 < DelayBetweenRequests s -> err = None ->
      sleeps evs = repeat (DelayBetweenRequests s) (length all)).
Proof.
  intros Hrun Htr.
  destruct (ScrapeAllProfiles_sleeps fuel s maxPages all err st st' evs Hrun Htr)
    as (n & Hsl & Hlen).
  rewrite Hsl. split; [apply sleeps_repeat|]. split.
  - intros Hle. destruct (Z.ltb_spec 0 (DelayBetweenRequests s)); [lia | reflexivity].
  - intros Hd Hnone. destruct (Z.ltb_spec 0 (DelayBetweenRequests s)); [|lia].
    now rewrite (Hlen Hnone).
Qed.

Lemma ScrapeAllProfiles_pauses_witness :
  sleeps (trace (snd Scenarios.politeWalk)) = repeat 1500000000 3.
Proof.
  apply (proj2 (proj2 (ScrapeAllProfiles_pauses 3 Scenarios.politeScraper 0
                         (fst (fst Scenarios.politeWalk)) None
                         (Scripted.start Scripted.twoPages) (snd Scenarios.politeWalk)
                         (trace (snd Scenarios.politeWalk))
                         ltac:(vm_compute; reflexivity) eq_refl))).
  - reflexivity.
  - reflexivity.
Defined.

(** ** [TrimSpace] leaves nothing to trim *)

Lemma string_app_cons (ch : ascii) (a b : string) :
  String ch a +:+ b = String ch (a +:+ b).
Proof. reflexivity. Qed.

Lemma string_app_assoc (a b c : string) : (a +:+ b) +:+ c = a +:+ b +:+ c.
Proof.
  induction a as [|ch a IH]; [reflexivity|].
  now rewrite !string_app_cons, IH.
Qed.

Lemma string_app_nil_r (a : string) : a +:+ EmptyString = a.
Proof.
  induction a as [|ch a IH]; [reflexivity|].
  now rewrite string_app_cons, IH.
Qed.

Lemma string_app_length (a b : string) :
  String.length (a +:+ b) = (String.length a + String.length b)%nat.
Proof.
  induction a as [|ch a IH]; [reflexivity|].
  rewrite string_app_cons. simpl. now rewrite IH.
Qed.

Lemma string_rev_app_acc (s acc : string) :
  String.rev_app s acc = String.rev s +:+ acc.
Proof.
  revert acc. induction s as [|ch s IH]; intros acc; [reflexivity|].
  unfold String.rev. simpl. rewrite (IH (String ch acc)), (IH (String ch EmptyString)).
  now rewrite string_app_assoc.
Qed.

Lemma string_rev_cons (ch : ascii) (s : string) :
  String.rev (String ch s) = String.rev s +:+ String ch EmptyString.
Proof. unfold String.rev at 1. simpl. apply string_rev_app_acc. Qed.

Lemma string_rev_app (a b : string) :
  String.rev (a +:+ b) = String.rev b +:+ String.rev a.
Proof.
  induction a as [|ch a IH].
  - change (EmptyString +:+ b) with b. now rewrite string_app_nil_r.
  - now rewrite string_app_cons, !string_rev_cons, IH, string_app_assoc.
Qed.

Lemma string_rev_involutive (s : string) : String.rev (String.rev s) = s.
Proof.
  induction s as [|ch s IH]; [reflexivity|].
  now rewrite string_rev_cons, string_rev_app, IH.
Qed.

Lemma string_rev_length (s : string) : String.length (String.rev s) = String.length s.
Proof.
  induction s as [|ch s IH]; [reflexivity|].
  rewrite string_rev_cons, string_app_length, IH. simpl. lia.
Qed.

Lemma leadingSpace_takesPrefix : takesPrefix leadingSpace.
Proof.
  intros s r. unfold leadingSpace.
  destruct s as [|c s]; [discriminate|].
  destruct (asciiSpace c).
  { intros [= <-]. exists (String c EmptyString). now split. }
  destruct s as [|d s]; [discriminate|].
  match goal with |- context [if ?b then _ else _] => destruct b end.
  { intros [= <-]. exists (String c (String d EmptyString)). now split. }
  destruct s as [|e s]; [discriminate|].
  match goal with |- context [if ?b then _ else _] => destruct b end; [|discriminate].
  intros [= <-]. exists (String c (String d (String e EmptyString))). now split.
Qed.

Lemma trailingSpace_takesPrefix : takesPrefix trailingSpace.
Proof.
  intros s r. unfold trailingSpace.
  destruct s as [|c s]; [discriminate|].
  destruct (asciiSpace c).
  { intros [= <-]. exists (String c EmptyString). now split. }
  destruct s as [|d s]; [discriminate|].
  match goal with |- context [if ?b then _ else _] => destruct b end.
  { intros [= <-]. exists (String c (String d EmptyString)). now split. }
  destruct s as [|e s]; [discriminate|].
  match goal with |- context [if ?b then _ else _] => destruct b end; [|discriminate].
  intros [= <-]. exists (String c (String d (String e EmptyString))). now split.
Qed.

Lemma dropWhile_done (step : string -> option string) (fuel : nat) (s : string) :
  takesPrefix step ->
  (String.length s <= fuel)%nat ->
  step (dropWhile step fuel s) = None
  /\ exists pre, s = pre +:+ dropWhile step fuel s.
Proof.
  intros Hstep. revert s. induction fuel as [|fuel IH]; intros s Hlen; simpl.
  - destruct s; [|simpl in Hlen; lia]. split; [|now exists EmptyString].
    destruct (step EmptyString) as [r|] eqn:Hr; [|reflexivity].
    apply Hstep in Hr as (pre & Heq & Hne). destruct pre; [congruence | discriminate].
  - destruct (step s) as [r|] eqn:Hr.
    + destruct (Hstep s r Hr) as (pre & -> & Hne).
      rewrite string_app_length in Hlen.
      destruct (IH r) as (Hnone & pre' & Hpre').
      { destruct pre; [congruence|]. simpl in Hlen. lia. }
      split; [exact Hnone|]. exists (pre +:+ pre').
      rewrite string_app_assoc. now rewrite <- Hpre'.
    + split; [exact Hr|]. now exists EmptyString.
Qed.

Lemma dropWhile_nothing (step : string -> option string) (fuel : nat) (s : string) :
  step s = None -> dropWhile step fuel s = s.
Proof. intros H. destruct fuel; simpl; [reflexivity | now rewrite H]. Qed.

Lemma leadingSpace_prefix (t w : string) :
  leadingSpace (t +:+ w) = None -> leadingSpace t = None.
Proof.
  unfold leadingSpace.
  destruct t as [|c t]; [reflexivity|]. simpl.
  destruct (asciiSpace c); [discriminate|].
  destruct t as [|d t]; [reflexivity|]. simpl.
  match goal with |- context [if ?b then _ else _] => destruct b end; [discriminate|].
  destruct t as [|e t]; [reflexivity|]. simpl.
  match goal with |- context [if ?b then _ else _] => destruct b end;
    [discriminate | reflexivity].
Qed.

Lemma TrimSpace_idempotent (s : string) : TrimSpace (TrimSpace s) = TrimSpace s.
Proof.
  unfold TrimSpace at 2. unfold TrimLeftSpace at 1, TrimRightSpace at 1.
  destruct (dropWhile_done leadingSpace (String.length s) s leadingSpace_takesPrefix
              (le_n _)) as (Hlead & _).
  set (u := dropWhile leadingSpace (String.length s) s) in *.
  destruct (dropWhile_done trailingSpace (String.length u) (String.rev u)
              trailingSpace_takesPrefix) as (Htrail & pre & Hpre).
  { rewrite string_rev_length. lia. }
  set (v := dropWhile trailingSpace (String.length u) (String.rev u)) in *.
  assert (Hu : u = String.rev v +:+ String.rev pre).
  { rewrite <- string_rev_app, <- Hpre. symmetry. apply string_rev_involutive. }
  assert (Ht : leadingSpace (String.rev v) = None).
  { apply (leadingSpace_prefix _ (String.rev pre)). now rewrite <- Hu. }
  unfold TrimSpace, TrimLeftSpace, TrimRightSpace.
  rewrite (dropWhile_nothing leadingSpace _ _ Ht).
  rewrite string_rev_involutive.
  now rewrite (dropWhile_nothing trailingSpace _ _ Htrail).
Qed.

(** ** More on the detail mapping *)

Lemma fillFromIncluded_first (profile : Profile) (userID : string)
    (before after : list includedResource) (inc : includedResource) :
  Forall (fun x => ~ (inc_Type x = "user"%string /\ inc_ID x = userID)) before ->
  inc_Type inc = "user"%string ->
  inc_ID inc = userID ->
  fillFromIncluded profile userID (before ++ inc :: after)
  = fillFromIncluded profile userID [inc].
Proof.
  intros Hbefore Htype Hid.
  induction Hbefore as [|x before Hx _ IH]; simpl.
  - rewrite Htype, Hid, !String.eqb_refl. simpl. reflexivity.
  - destruct (String.eqb_spec (inc_Type x) "user") as [Ht|Ht]; simpl; [|exact IH].
    destruct (String.eqb_spec (inc_ID x) userID) as [Hi|Hi]; simpl; [|exact IH].
    exfalso. now apply Hx.
Qed.

(** X13. When the payload refers to a user and [included] holds entries
    of type [user] with that id, the first of them fills the profile:
    the name is the trimmed first and last names joined by a space and
    trimmed again, the location is the countries joined by a comma and a
    space, or the time zone when there is no country, and title, company
    and URL are copied. *)
Theorem mapBrellaDetailToProfile_first_user (resp : brellaAttendeeDetailResponse)
    (before after : list includedResource) (inc : includedResource) :
  let userID := ref_ID (data_Relationships_User_Data (detail_Data resp)) in
  let a := inc_Attributes inc in
  userID <> EmptyString ->
  detail_Included resp = before ++ inc :: after ->
  Forall (fun x => ~ (inc_Type x = "user"%string /\ inc_ID x = userID)) before ->
  inc_Type inc = "user"%string ->
  inc_ID inc = userID ->
  mapBrellaDetailToProfile resp
  = {| ID := data_ID (detail_Data resp);
       Name := TrimSpace (TrimSpace (FirstName a) +:+ " " +:+ TrimSpace (LastName a));
       Title := CompanyTitle a;
       Company := CompanyName a;
       Location := match CompanyCountries a with
                   | [] => TimeZone a
                   | _ :: _ => Join (CompanyCountries a) ", "
                   end;
       LinkedInURL := LinkedIn a;
       PossibleLinkedInURLs := [] |}.
Proof.
  simpl. intros Hne Hincluded Hbefore Htype Hid.
  unfold mapBrellaDetailToProfile. apply isEmpty_false in Hne. rewrite Hne.
  rewrite Hincluded, (fillFromIncluded_first _ _ before after inc Hbefore Htype Hid).
  simpl. rewrite Htype, Hid, !String.eqb_refl. simpl.
  f_equal. unfold userLocation.
  destruct (CompanyCountries (inc_Attributes inc)) as [|country countries];
    [|reflexivity].
  simpl. now destruct (TimeZone (inc_Attributes inc)).
Qed.

Lemma mapBrellaDetailToProfile_first_user_witness :
  mapBrellaDetailToProfile Scenarios.detail_two_users
  = {| ID := "att-2"; Name := "Grace Hopper"; Title := "Rear Admiral";
       Company := "Navy"; Location := "US, UK";
       LinkedInURL := "https://linkedin.com/in/grace";
       PossibleLinkedInURLs := [] |}.
Proof.
  apply (mapBrellaDetailToProfile_first_user Scenarios.detail_two_users
           [Scenarios.company_entry] [Scenarios.second_user] Scenarios.first_user).
  - discriminate.
  - reflexivity.
  - apply Forall_cons. split; [|constructor]. intros [H _]. discriminate.
  - reflexivity.
  - reflexivity.
Defined.

Lemma fillFromIncluded_keeps (profile : Profile) (userID : string)
    (included : list includedResource) :
  TrimSpace (Name profile) = Name profile ->
  let p := fillFromIncluded profile userID included in
  ID p = ID profile
  /\ PossibleLinkedInURLs p = PossibleLinkedInURLs profile
  /\ TrimSpace (Name p) = Name p.
Proof.
  intros Hname. induction included as [|inc rest IH]; simpl.
  - auto.
  - destruct (negb (inc_Type inc =? "user")%string || negb (inc_ID inc =? userID)%string);
      [exact IH|]. simpl. split; [reflexivity|]. split; [reflexivity|].
    apply TrimSpace_idempotent.
Qed.

(** X14. Whatever the payload, the mapped profile carries the primary id,
    no [PossibleLinkedInURLs], and a name without white space around it;
    when the payload refers to no user it is the bare stub, whatever
    [included] holds.  The enrichment loop therefore searches a mapped
    profile exactly when it has no URL and its name is not empty. *)
Theorem mapBrellaDetailToProfile_invariants (resp : brellaAttendeeDetailResponse) :
  let p := mapBrellaDetailToProfile resp in
  ID p = data_ID (detail_Data resp)
  /\ PossibleLinkedInURLs p = []
  /\ TrimSpace (Name p) = Name p
  /\ (ref_ID (data_Relationships_User_Data (detail_Data resp)) = EmptyString ->
      p = stubProfile (data_ID (detail_Data resp)))
  /\ (skipped p = false <-> LinkedInURL p = EmptyString /\ Name p <> EmptyString).
Proof.
  simpl.
  assert (H : ID (mapBrellaDetailToProfile resp) = data_ID (detail_Data resp)
              /\ PossibleLinkedInURLs (mapBrellaDetailToProfile resp) = []
              /\ TrimSpace (Name (mapBrellaDetailToProfile resp))
                 = Name (mapBrellaDetailToProfile resp)).
  { unfold mapBrellaDetailToProfile. destruct (isEmpty _).
    - repeat split.
    - apply (fillFromIncluded_keeps (stubProfile _)). reflexivity. }
  destruct H as (Hid & Hposs & Hname).
  split; [exact Hid|]. split; [exact Hposs|]. split; [exact Hname|]. split.
  - intros Hnone. unfold mapBrellaDetailToProfile. now rewrite Hnone.
  - unfold skipped. rewrite Hname, orb_false_iff, negb_false_iff.
    now rewrite isEmpty_true, isEmpty_false.
Qed.

(** ** More on the client *)

Section ClientMore.
Context {R : Runtime}.

(** X15. A request [newRequest] builds has the method asked for, the base
    URL followed by the path as its URL, exactly one [Accept] header
    naming the vendor media type, an [Authorization] header (the bearer
    token) exactly when a token is configured, and likewise each of the
    optional vendor headers and the session cookie exactly when its value
    is configured. *)
Theorem newRequest_headers (c : Client) (method path : string) (req : Request) :
  newRequest c method path = inr req ->
  let optional (value : string) (header : string) :=
    if isEmpty value then [] else [header] in
  Method req = method
  /\ URL req = BaseURL c +:+ path
  /\ headerValues "Accept" req = ["application/vnd.brella.v4+json"%string]
  /\ headerValues "Authorization" req
     = optional (AuthToken c) ("Bearer " +:+ AuthToken c)
  /\ headerValues "access-token" req = optional (AccessToken c) (AccessToken c)
  /\ headerValues "client" req = optional (ClientID c) (ClientID c)
  /\ headerValues "uid" req = optional (UID c) (UID c)
  /\ headerValues "x-brella-media-type" req
     = optional (BrellaMediaType c) (BrellaMediaType c)
  /\ headerValues "Cookie" req
     = optional (SessionCookie c) ("_brella_session=" +:+ SessionCookie c).
Proof.
  unfold newRequest, NewRequestWithContext, setIf.
  destruct (isEmpty (BaseURL c)); [discriminate|].
  destruct (urlError _); [discriminate|].
  intros [= <-].
  destruct (isEmpty (AuthToken c)), (isEmpty (AccessToken c)), (isEmpty (ClientID c)),
    (isEmpty (UID c)), (isEmpty (BrellaMediaType c)), (isEmpty (SessionCookie c));
    repeat split.
Qed.

(** X16. The two client calls check their arguments before anything else
    and then send nothing: an empty event id, for the detail call an empty
    attendee id, and an empty base URL each give their own error, in this
    order, with the state untouched. *)
Theorem client_calls_validate (c : Client) (eventID attendeeID : string)
    (page pageSize : Z) (st : State) :
  (eventID = EmptyString ->
   ListProfiles c eventID page pageSize st
   = (inl (errorString "eventID is empty"), st)
   /\ GetAttendeeProfile c eventID attendeeID st
      = (inl (errorString "eventID is empty"), st))
  /\ (eventID <> EmptyString -> attendeeID = EmptyString ->
      GetAttendeeProfile c eventID attendeeID st
      = (inl (errorString "attendeeID is empty"), st))
  /\ (eventID <> EmptyString -> BaseURL c = EmptyString ->
      ListProfiles c eventID page pageSize st
      = (inl (errorString "client BaseURL is empty"), st)
      /\ (attendeeID <> EmptyString ->
          GetAttendeeProfile c eventID attendeeID st
          = (inl (errorString "client BaseURL is empty"), st))).
Proof.
  unfold ListProfiles, GetAttendeeProfile, bind, lift, fail, newRequest.
  split; [|split].
  - intros ->. now split.
  - intros HE ->. apply isEmpty_false in HE. now rewrite HE.
  - intros HE HB. apply isEmpty_false in HE. apply isEmpty_true in HB.
    rewrite HE, HB. split; [reflexivity|].
    intros HA. apply isEmpty_false in HA. now rewrite HA.
Qed.

(** X17. From a listing answer that decodes [ListProfiles] returns one
    stub for each item whose id is not empty, in the order of the answer:
    each has that id and nothing else, there are never more stubs than
    items, and the call has sent exactly one request. *)
Theorem ListProfiles_stubs (c : Client) (eventID : string) (page pageSize : Z)
    (st : State) (req : Request) (resp : Response Body) (w : World)
    (apiResp : brellaAttendeesListResponse) :
  eventID <> EmptyString ->
  newRequest c "GET" (listPath eventID page pageSize) = inr req ->
  RoundTrip req (world st) = (inr resp, w) ->
  StatusCode resp = 200 ->
  decodeAttendees (RespBody resp) = inr apiResp ->
  exists res,
    ListProfiles c eventID page pageSize st
    = (inr res, {| world := w; trace := trace st ++ [Exchange req (inr resp)] |})
    /\ map ID (Profiles res) = List.filter nonEmpty (list_Data apiResp)
    /\ Forall (fun p => ID p <> EmptyString /\ p = stubProfile (ID p)) (Profiles res)
    /\ (length (Profiles res) <= length (list_Data apiResp))%nat.
Proof.
  intros HE Hreq Hrt Hstatus Hdecode.
  apply isEmpty_false in HE.
  unfold ListProfiles, bind, lift, Do. rewrite HE, Hreq, Hrt, Hstatus.
  simpl. rewrite Hdecode.
  eexists. split; [reflexivity|]. simpl. rewrite stubsOf_filter. simpl.
  split; [|split].
  - rewrite map_map. simpl. apply map_id.
  - apply Forall_forall. intros p Hp.
    apply list_elem_of_In, in_map_iff in Hp as (id & <- & Hid).
    apply filter_In in Hid as [_ Hid]. simpl. split; [|reflexivity].
    apply isEmpty_false. unfold nonEmpty in Hid. now apply negb_true_iff in Hid.
  - rewrite length_map. apply List.filter_length_le.
Qed.

End ClientMore.

Lemma newRequest_headers_witness :
  headerValues "Authorization" Scenarios.authorized = ["Bearer secret"%string]
  /\ headerValues "Cookie" Scenarios.authorized = [].
Proof.
  destruct (newRequest_headers (R := Scripted.runtime)
              (NewClient "https://api.brella.io" "secret") "GET" "/api/x"
              Scenarios.authorized eq_refl)
    as (_ & _ & _ & Hauth & _ & _ & _ & _ & Hcookie).
  split; [exact Hauth | exact Hcookie].
Defined.

Lemma client_calls_validate_witness :
  GetAttendeeProfile Scripted.client "AMS25" EmptyString
    (Scripted.start Scripted.twoPages)
  = (inl (errorString "attendeeID is empty"), Scripted.start Scripted.twoPages).
Proof.
  apply (proj1 (proj2 (client_calls_validate Scripted.client "AMS25" EmptyString 1 2
                         (Scripted.start Scripted.twoPages)))).
  - discriminate.
  - reflexivity.
Defined.

Lemma ListProfiles_stubs_witness :
  exists res,
    ListProfiles Scripted.client "AMS25" 1 3
      (Scripted.start [Scripted.ok (Scripted.AttendeesJSON ["a"; EmptyString; "c"]%string)])
    = (inr res,
       {| world := [];
          trace := [Exchange Scenarios.listing
                      (Scripted.ok (Scripted.AttendeesJSON ["a"; EmptyString; "c"]%string))] |})
    /\ map ID (Profiles res) = ["a"; "c"]%string.
Proof.
  destruct (ListProfiles_stubs (R := Scripted.runtime) Scripted.client "AMS25" 1 3
              (Scripted.start [Scripted.ok (Scripted.AttendeesJSON ["a"; EmptyString; "c"]%string)])
              Scenarios.listing
              {| StatusCode := 200;
                 RespBody := Scripted.AttendeesJSON ["a"; EmptyString; "c"]%string |}
              [] {| list_Data := ["a"; EmptyString; "c"]%string |})
    as (res & Hrun & Hids & _); try reflexivity; [discriminate|].
  exists res. split; [exact Hrun | exact Hids].
Defined.

(** ** From the environment to the pauses *)

Lemma delayFromEnv_positive (d : string) :
  (forall ms, config.Atoi d = Some ms -> ms <= 9223372036854) ->
  0 < config.delayFromEnv d.
Proof.
  intros Hbound. unfold config.delayFromEnv.
  assert (Hdefault : config.int_mul 1000 config.Millisecond = 1000000000)
    by reflexivity.
  destruct (negb (isEmpty d)); [|rewrite Hdefault; simpl; lia].
  destruct (config.Atoi d) as [ms|] eqn:Hms; [|rewrite Hdefault; simpl; lia].
  specialize (Hbound ms eq_refl).
  destruct (Z.leb_spec 0 ms); [|rewrite Hdefault; simpl; lia].
  assert (Hmul : config.int_mul ms config.Millisecond = ms * 1000000).
  { unfold config.int_mul, config.Millisecond. rewrite Z.mod_small; lia. }
  rewrite Hmul. destruct (Z.eqb_spec (ms * 1000000) 0); [rewrite Hdefault|]; lia.
Qed.

(** X18. With a configuration read from the environment, whose request
    delay variable does not exceed 9223372036854 milliseconds, the scraper
    [main] sets up has a positive delay whatever the variable holds, also
    zero: a walk that returns its profiles has paused for that delay once
    for each of them. *)
Theorem main_walk_pauses {R : Runtime} (getenv : string -> string)
    (cfg : config.Config) (pageSize maxPages : Z) (fuel : nat)
    (all : list Profile) (st st' : State) (evs : list Event) :
  config.FromEnv getenv = inr cfg ->
  (forall ms, config.Atoi (getenv "BITCONF_REQUEST_DELAY_MS") = Some ms ->
              ms <= 9223372036854) ->
  ScrapeAllProfiles fuel (mainScraper cfg pageSize) maxPages st
  = Some ((all, None), st') ->
  trace st' = trace st ++ evs ->
  0 < config.RequestDelay cfg
  /\ sleeps evs = repeat (config.RequestDelay cfg) (length all).
Proof.
  intros Hcfg Hbound Hrun Htr.
  assert (Hpos : 0 < config.RequestDelay cfg).
  { revert Hcfg. unfold config.FromEnv.
    destruct (isEmpty (getenv "BITCONF_API_BASE_URL")); [discriminate|].
    destruct (isEmpty (getenv "BITCONF_EVENT_ID")); [discriminate|].
    intros [= <-]. simpl. now apply delayFromEnv_positive. }
  split; [exact Hpos|].
  destruct (ScrapeAllProfiles_sleeps fuel (mainScraper cfg pageSize) maxPages
              all None st st' evs Hrun Htr) as (n & Hsl & Hlen).
  rewrite Hsl, (Hlen eq_refl). simpl.
  destruct (Z.ltb_spec 0 (config.RequestDelay cfg)); [reflexivity | lia].
Qed.

(** X19. With such a configuration the matcher [main] sets up, when it is
    enabled, has a positive search delay as well: an enrichment that ends
    without an error has paused for it once for each profile it searched
    for. *)
Theorem main_enrich_pauses {R : Runtime} (getenv : string -> string)
    (cfg : config.Config) (profiles : list Profile) (st : State)
    (evs : list Event) :
  config.FromEnv getenv = inr cfg ->
  (forall ms, config.Atoi (getenv "BITCONF_SEARCH_DELAY_MS") = Some ms ->
              ms <= 9223372036854) ->
  enabled (NewMatcher (matcherConfig cfg)) = true ->
  snd (fst (EnrichProfiles (NewMatcher (matcherConfig cfg)) profiles st)) = None ->
  trace (snd (EnrichProfiles (NewMatcher (matcherConfig cfg)) profiles st))
  = trace st ++ evs ->
  0 < config.SearchDelay cfg
  /\ sleeps evs
     = repeat (config.SearchDelay cfg) (length (List.filter searched profiles)).
Proof.
  intros Hcfg Hbound Hen Hnone Htr.
  assert (Hpos : 0 < config.SearchDelay cfg).
  { revert Hcfg. unfold config.FromEnv.
    destruct (isEmpty (getenv "BITCONF_API_BASE_URL")); [discriminate|].
    destruct (isEmpty (getenv "BITCONF_EVENT_ID")); [discriminate|].
    intros [= <-]. simpl. now apply delayFromEnv_positive. }
  split; [exact Hpos|].
  rewrite EnrichProfiles_enrichRest, Hen in Hnone, Htr.
  destruct (enrichRest_effects (NewMatcher (matcherConfig cfg)) profiles st)
    as (evs' & Htr' & _ & _ & _ & Hsleeps).
  rewrite Htr' in Htr. apply app_inv_head in Htr. subst evs'.
  rewrite (Hsleeps Hnone). simpl.
  destruct (Z.ltb_spec 0 (config.SearchDelay cfg)); [reflexivity | lia].
Qed.

Lemma main_walk_pauses_witness :
  0 < config.RequestDelay Scenarios.configured
  /\ sleeps (trace (snd Scenarios.mainWalk))
     = repeat (config.RequestDelay Scenarios.configured) 3.
Proof.
  apply (main_walk_pauses Scenarios.environment Scenarios.configured 2 0 3
           (fst (fst Scenarios.mainWalk)) (Scripted.start Scripted.twoPages)
           (snd Scenarios.mainWalk) (trace (snd Scenarios.mainWalk))).
  - vm_compute. reflexivity.
  - intros ms [= <-]. lia.
  - vm_compute. reflexivity.
  - reflexivity.
Defined.

Lemma main_enrich_pauses_witness :
  0 < config.SearchDelay Scenarios.configuredSearch
  /\ sleeps (trace (snd Scenarios.mainEnrich))
     = repeat (config.SearchDelay Scenarios.configuredSearch) 1.
Proof.
  apply (main_enrich_pauses Scenarios.searchEnvironment Scenarios.configuredSearch
           [Scripted.lovelace; Scripted.hopper] (Scripted.start Scripted.searches)
           (trace (snd Scenarios.mainEnrich))).
  - vm_compute. reflexivity.
  - intros ms [= <-]. lia.
  - reflexivity.
  - vm_compute. reflexivity.
  - reflexivity.
Defined.

(** ** The search URL *)






(** ** A walk that does not end *)

Section Endless.
Context {R : Runtime}.





End Endless.

